(** * Conversion pipeline: file lifecycle, execution engine, worker and event bridge

    A shallow embedding of the JavaScript sources

      - [server.js]   the direct executor ([executeTask]) with its routes,
      - [server2.js]  the queue gateway (producer) and the event bridge,
      - the BullMQ worker ([runPython] and the job routing table),

    followed by the properties of the natural-language specification that
    can be stated on them.

    Conventions.  JavaScript strings are [string]; a request field that may
    be [undefined] is an [option string]; numbers that the code only compares,
    subtracts or prints (timestamps, exit codes, sizes) are [Z].  A [Map] is a
    [gmap].  Handlers are state transformers on the record of the process
    state they touch; one handler runs to completion before the next one
    starts, as on the Node event loop. *)

From Stdlib Require Import ZArith String Ascii List Lia.
From stdpp Require Import base gmap strings list pretty.

Local Open Scope Z_scope.
Local Open Scope string_scope.

(* ===================================================================== *)
(** ** JavaScript string primitives used by the sources *)
(* ===================================================================== *)

Module Js.

(** [!!s] for a string: only the empty string is falsy. *)
Definition truthy (s : string) : bool :=
  match s with EmptyString => false | String _ _ => true end.

(** [x || d] where [x] is a string-valued request field that may be
    [undefined]. *)
Definition or_default (x : option string) (d : string) : string :=
  match x with
  | Some s => if truthy s then s else d
  | None => d
  end.

(** [if (x)] for such a field. *)
Definition truthy_opt (x : option string) : bool :=
  match x with
  | Some s => truthy s
  | None => false
  end.

(** [s.slice(0, n)] for [0 <= n]: the first [n] characters, or all of [s]
    when it is shorter. *)
Fixpoint slice0 (n : nat) (s : string) : string :=
  match n, s with
  | O, _ => EmptyString
  | S _, EmptyString => EmptyString
  | S n', String c s' => String c (slice0 n' s')
  end.

(** [`${n}`] for an integer. *)
Definition num (n : Z) : string := pretty n.

(** [`${code}`] for the exit code handed to a ['close'] listener, which is
    [null] when the child was ended by a signal. *)
Definition code_str (code : option Z) : string :=
  match code with
  | Some n => num n
  | None => "null"
  end.

(** [s.toLowerCase()] on the ASCII letters. *)
Definition lower_char (c : ascii) : ascii :=
  let n := nat_of_ascii c in
  if (Nat.leb 65 n && Nat.leb n 90)%bool then ascii_of_nat (n + 32) else c.

Fixpoint toLowerCase (s : string) : string :=
  match s with
  | EmptyString => EmptyString
  | String c s' => String (lower_char c) (toLowerCase s')
  end.

(** White space removed by [trim()], among the code units below 256. *)
Definition is_ws (c : ascii) : bool :=
  match nat_of_ascii c with
  | 9%nat | 10%nat | 11%nat | 12%nat | 13%nat | 32%nat | 160%nat => true
  | _ => false
  end.

Fixpoint trimStart (s : string) : string :=
  match s with
  | EmptyString => EmptyString
  | String c s' => if is_ws c then trimStart s' else s
  end.

Definition trim (s : string) : string :=
  String.rev (trimStart (String.rev (trimStart s))).

(** [hay.includes(needle)]. *)
Definition includes (hay needle : string) : Prop :=
  ∃ pre post, hay = pre +:+ needle +:+ post.

End Js.

(* ===================================================================== *)
(** ** Paths and the file system *)
(* ===================================================================== *)

Module Path.

Definition sep : ascii := "/"%char.

(** [path.join(dir, file)] for a normalised absolute [dir] and a plain
    entry name [file] (what [readdir] returns, and the output file names
    the routes build). *)
Definition join (dir file : string) : string := dir +:+ "/" +:+ file.

Fixpoint has_sep (s : string) : bool :=
  match s with
  | EmptyString => false
  | String c s' => if Ascii.eqb c sep then true else has_sep s'
  end.

(** Split at the last separator: directory part and entry name. *)
Fixpoint split (p : string) : option (string * string) :=
  match p with
  | EmptyString => None
  | String c p' =>
      match split p' with
      | Some (d, n) => Some (String c d, n)
      | None => if Ascii.eqb c sep then Some (EmptyString, p') else None
      end
  end.

End Path.

(** What [fs.stat] reports and the code reads. *)
Record Stats := mkStats {
  isFile : bool;
  mtimeMs : Z;
  ctimeMs : Z;
  size : Z
}.

(** Names of the entries of directory [dir]: the paths of the file system
    whose directory part is [dir]. *)
Definition entry_of (dir : string) (p : string) : option string :=
  match Path.split p with
  | Some (d, n) => if decide (d = dir ∧ n ≠ "") then Some n else None
  | None => None
  end.

Definition readdir (fs : gmap string Stats) (dir : string) : list string :=
  omap (entry_of dir) (map_to_list fs).*1.

Definition existsSync (fs : gmap string Stats) (p : string) : bool :=
  bool_decide (is_Some (fs !! p)).

(* ===================================================================== *)
(** ** File lifecycle manager ([server.js] 23-91, [server2.js] 52-96) *)
(* ===================================================================== *)

(** A pending [setTimeout]: its handle, the path its callback will unlink,
    and the delay it was armed with. *)
Record Timer := mkTimer {
  timerId : nat;
  timerPath : string;
  timerDelay : Z
}.

(** The part of the process state the lifecycle manager reads and writes:
    the disk, the [deletionTimers] map, the timers armed on the event loop,
    and the [fs.unlink] requests that a fired timer has issued and whose
    callback has not run yet. *)
Record Lifecycle := mkLifecycle {
  fs : gmap string Stats;
  deletionTimers : gmap string nat;
  timers : list Timer;
  unlinking : list string;
  nextTimer : nat
}.

Definition with_fs (f : gmap string Stats) (st : Lifecycle) : Lifecycle :=
  mkLifecycle f (deletionTimers st) (timers st) (unlinking st) (nextTimer st).

Definition lifecycle_init (disk : gmap string Stats) : Lifecycle :=
  mkLifecycle disk ∅ [] [] 0.

(** [parseInt(process.env.X, 10) || dflt]: an unset or unparsable variable
    gives [NaN], and [NaN] and [0] are falsy. *)
Definition env_or (env : option Z) (dflt : Z) : Z :=
  match env with
  | Some n => if Z.eqb n 0 then dflt else n
  | None => dflt
  end.

Definition FILE_TTL_MS (env : option Z) : Z := env_or env (5 * 60 * 1000).
Definition CLEANUP_INTERVAL_MS (env : option Z) : Z := env_or env (60 * 1000).

(** [scheduleDeletion(filePath, ttl)]. *)
Definition scheduleDeletion (filePath : string) (ttl : Z) (st : Lifecycle)
  : Lifecycle :=
  if negb (Js.truthy filePath) then st
  else if bool_decide (is_Some (deletionTimers st !! filePath)) then st
  else if negb (existsSync (fs st) filePath) then st
  else
    let timer := nextTimer st in
    mkLifecycle (fs st)
                (<[filePath := timer]> (deletionTimers st))
                (timers st ++ [mkTimer timer filePath ttl])
                (unlinking st)
                (S timer).

(** The timer callback: the timeout [id] leaves the event loop and issues
    [fs.unlink(filePath, cb)]. *)
Definition timer_fire (id : nat) (st : Lifecycle) : Lifecycle :=
  match list_find (λ t, timerId t = id) (timers st) with
  | Some (i, t) =>
      mkLifecycle (fs st) (deletionTimers st)
                  (delete i (timers st))
                  (unlinking st ++ [timerPath t])
                  (nextTimer st)
  | None => st
  end.

Fixpoint remove_first (p : string) (l : list string) : list string :=
  match l with
  | [] => []
  | q :: l' => if decide (q = p) then l' else q :: remove_first p l'
  end.

(** Completion of that [fs.unlink]: the file is gone (when it was there) and
    the callback removes the map entry whether or not there was an error. *)
Definition unlink_done (p : string) (st : Lifecycle) : Lifecycle :=
  mkLifecycle (delete p (fs st))
              (delete p (deletionTimers st))
              (timers st)
              (remove_first p (unlinking st))
              (nextTimer st).

(** The body of the [files.map] callback of [scanAndCleanup] for one entry. *)
Definition sweep_entry (ttl : Z) (dir : string) (now : Z)
    (st : Lifecycle) (file : string) : Lifecycle :=
  let filePath := Path.join dir file in
  match fs st !! filePath with
  | None => st
  | Some stats =>
      if negb (isFile stats) then st
      else
        let age := now - Z.max (mtimeMs stats) (ctimeMs stats) in
        if Z.ltb ttl age then
          if negb (bool_decide (is_Some (deletionTimers st !! filePath)))
          then with_fs (delete filePath (fs st)) st
          else st
        else st
  end.

(** [scanAndCleanup(dir)], run at time [now]. *)
Definition scanAndCleanup (ttl : Z) (dir : string) (now : Z)
    (st : Lifecycle) : Lifecycle :=
  foldl (sweep_entry ttl dir now) st (readdir (fs st) dir).

(** One tick of the [setInterval] callback: both storage areas. *)
Definition sweep_tick (ttl : Z) (uploadDir outputsDir : string)
    (now_uploads now_outputs : Z) (st : Lifecycle) : Lifecycle :=
  scanAndCleanup ttl outputsDir now_outputs
    (scanAndCleanup ttl uploadDir now_uploads st).

(** The ways the lifecycle state moves between two handlers: a call of
    [scheduleDeletion], a timer that fires, an unlink that completes, a
    scan, and a file written by multer or by an engine. *)
Inductive lifecycle_step : Lifecycle → Lifecycle → Prop :=
| step_schedule p ttl st :
    lifecycle_step st (scheduleDeletion p ttl st)
| step_fire id st :
    lifecycle_step st (timer_fire id st)
| step_unlink_done p st :
    p ∈ unlinking st →
    lifecycle_step st (unlink_done p st)
| step_scan ttl dir now st :
    lifecycle_step st (scanAndCleanup ttl dir now st)
| step_write p stats st :
    lifecycle_step st (with_fs (<[p := stats]> (fs st)) st).

Inductive reachable (disk : gmap string Stats) : Lifecycle → Prop :=
| reach_init : reachable disk (lifecycle_init disk)
| reach_step st st' :
    reachable disk st → lifecycle_step st st' → reachable disk st'.

(** Scheduled deletions of [p] that are still outstanding: armed timers for
    [p] plus unlinks of [p] in flight. *)
Definition armed (p : string) (st : Lifecycle) : nat :=
  length (filter (λ t, timerPath t = p) (timers st)).

Definition in_flight (p : string) (st : Lifecycle) : nat :=
  length (filter (λ q, q = p) (unlinking st)).

Definition outstanding (p : string) (st : Lifecycle) : nat :=
  (armed p st + in_flight p st)%nat.

Definition scheduled (p : string) (st : Lifecycle) : Prop :=
  is_Some (deletionTimers st !! p).

(** When [scheduleDeletion] arms a timer. *)
Definition schedulable (p : string) (st : Lifecycle) : bool :=
  Js.truthy p && negb (bool_decide (scheduled p st)) && existsSync (fs st) p.

(** Each path has exactly as many outstanding deletions as the map says:
    one when it is a key of [deletionTimers], none otherwise. *)
Definition timers_match_map (st : Lifecycle) : Prop :=
  ∀ q, outstanding q st = if decide (scheduled q st) then 1%nat else 0%nat.

(** The age the scan computes: time since the later of the modification
    and the status-change time. *)
Definition age (now : Z) (stats : Stats) : Z :=
  now - Z.max (mtimeMs stats) (ctimeMs stats).

(** The entries a scan unlinks: regular files older than the TTL whose path
    is not a key of [deletionTimers]. *)
Definition purged (ttl now : Z) (dt : gmap string nat) (p : string)
    (stats : Stats) : bool :=
  isFile stats && Z.ltb ttl (age now stats) &&
  negb (bool_decide (is_Some (dt !! p))).

(** [path.resolve(__dirname, 'uploads')] and
    [path.resolve(__dirname, 'outputs')]. *)
Definition uploadDir (__dirname : string) : string :=
  Path.join __dirname "uploads".
Definition outputsDir (__dirname : string) : string :=
  Path.join __dirname "outputs".

(* ===================================================================== *)
(** ** The duration token: [/won in ([\d\.]+)s/] *)
(* ===================================================================== *)

Module Duration.

(** The character class [[\d\.]]. *)
Definition in_class (c : ascii) : bool :=
  let n := nat_of_ascii c in
  ((Nat.leb 48 n && Nat.leb n 57) || Nat.eqb n 46)%bool.

(** Match the literal [lit] at the head of [s]; the rest of [s]. *)
Fixpoint literal (lit s : string) : option string :=
  match lit, s with
  | EmptyString, _ => Some s
  | String a lit', String b s' =>
      if Ascii.eqb a b then literal lit' s' else None
  | String _ _, EmptyString => None
  end.

(** [[\d\.]+s] at the head of [s], as a backtracking matcher runs it: the
    greedy [+] first tries to take one more character of the class, and
    only when the rest fails that way it stops and looks for the [s]. *)
Fixpoint class_plus_s (s : string) : option string :=
  match s with
  | EmptyString => None
  | String c s' =>
      if in_class c then
        match class_plus_s s' with
        | Some d => Some (String c d)
        | None =>
            match literal "s" s' with
            | Some _ => Some (String c EmptyString)
            | None => None
            end
        end
      else None
  end.

(** The whole pattern anchored at the head of [s]; capture group 1. *)
Definition match_here (s : string) : option string :=
  match literal "won in " s with
  | Some rest => class_plus_s rest
  | None => None
  end.

(** [s.match(/won in ([\d\.]+)s/)]: the leftmost position where the
    pattern matches; [timeMatch[1]]. *)
Fixpoint timeMatch (s : string) : option string :=
  match match_here s with
  | Some d => Some d
  | None =>
      match s with
      | EmptyString => None
      | String _ s' => timeMatch s'
      end
  end.

Fixpoint all_class (d : string) : bool :=
  match d with
  | EmptyString => true
  | String c d' => (in_class c && all_class d')%bool
  end.

(** [s] holds a duration token with value [d] after the prefix [pre]. *)
Definition token_at (s pre d post : string) : Prop :=
  s = pre +:+ "won in " +:+ d +:+ "s" +:+ post ∧
  d ≠ "" ∧ all_class d = true.

Definition has_token (s : string) : Prop :=
  ∃ pre d post, token_at s pre d post.

(** The token that starts first. *)
Definition first_token (s d : string) : Prop :=
  ∃ pre post, token_at s pre d post ∧
    ∀ pre' d' post', token_at s pre' d' post' →
      (String.length pre <= String.length pre')%nat.

End Duration.

(* ===================================================================== *)
(** ** Data shared by the executor, the worker and the bridge *)
(* ===================================================================== *)

(** The result object built on success.  [server.js] sets [status],
    [downloadUrl] and [fileSize]; the worker sets [status], [downloadUrl],
    [duration] and [file].  A field the code does not set is [None]. *)
Record ResponseData := mkResponseData {
  status : string;
  downloadUrl : string;
  fileSize : option Z;
  duration : option string;
  file : option string
}.

Inductive Payload :=
| PText (msg : string)
| PResult (r : ResponseData).

(** [io.to(room).emit(event, payload)]. *)
Record Emit := mkEmit {
  room : string;
  event : string;
  payload : Payload
}.

(** socket.io: every connected socket sits in the room named by its own id,
    so an emit to [room] reaches the client registered under that id when
    there is one, and nobody otherwise.  [inbox clients client es] is what
    [client] receives of the emits [es] when [clients] are connected. *)
Definition inbox (clients : gset string) (client : string) (es : list Emit)
  : list (string * Payload) :=
  (λ e, (event e, payload e)) <$>
    filter (λ e, room e = client ∧ room e ∈ clients) es.

(** What a spawned engine does, as its parent sees it: chunks on its two
    pipes, then ['close'] with the exit code ([None] is [null]: ended by a
    signal). *)
Inductive ChildEvent :=
| Stdout (data : string)
| Stderr (data : string).

Record Child := mkChild {
  output : list ChildEvent;
  exitCode : option Z
}.

(** All the child wrote on each pipe, in order. *)
Definition stdout_text (evs : list ChildEvent) : string :=
  foldl (λ acc ev, match ev with Stdout d => acc +:+ d | Stderr _ => acc end)
        "" evs.

Definition stderr_text (evs : list ChildEvent) : string :=
  foldl (λ acc ev, match ev with Stderr d => acc +:+ d | Stdout _ => acc end)
        "" evs.

(** [code === 0]. *)
Definition is_zero (code : option Z) : bool :=
  match code with
  | Some n => Z.eqb n 0
  | None => false
  end.

(** [spawn('python', [script, ...args])]. *)
Definition spawn_argv (script : string) (args : list string) : list string :=
  "python" :: script :: args.

(** The file object multer attaches to a request. *)
Record File := mkFile {
  path : string;
  originalname : string;
  filename : string
}.

(** [path.resolve(p)] for the path multer stored the upload under, which is
    [path.join] of the resolved upload directory and a file name: absolute
    and normalised already. *)
Definition path_resolve (p : string) : string := p.

(** The fields of [req.body] the modelled routes read. *)
Record ReqBody := mkReqBody {
  body_socketId : option string;
  body_tool : option string;
  body_secretKey : option string;
  body_grayscale : option string;
  body_dpi : option string
}.

Record Req := mkReq {
  req_file : option File;
  req_body : ReqBody
}.

(** JSON bodies the modelled routes answer with. *)
Inductive Json :=
| JError (error : string)
| JSpawnFailed (error details : string)
| JFailed (error : string) (code : option Z) (details : string)
| JResult (r : ResponseData)
| JQueued (status message : string).

Record Res := mkRes {
  headersSent : bool;
  statusCode : Z;
  sent : option Json
}.

Definition res_fresh : Res := mkRes false 200 None.

(** [res.status(n).json(b)] and [res.json(b)]. *)
Definition res_status (n : Z) (res : Res) : Res :=
  mkRes (headersSent res) n (sent res).
Definition res_json (b : Json) (res : Res) : Res :=
  mkRes true (statusCode res) (Some b).

(* ===================================================================== *)
(** ** The worker: [runPython] and the job processor *)
(* ===================================================================== *)

Module Worker.

(** The object handed to [job.updateProgress]. *)
Record Progress := mkProgress {
  message : string;
  progress_socketId : option string
}.

(** The closure variables of one [runPython] call, and the progress
    updates it has made. *)
Record RunState := mkRunState {
  fullOutput : string;
  stderrOutput : string;
  updates : list Progress
}.

Definition run_start : RunState := mkRunState "" "" [].

Definition on_stdout (socketId : option string) (data : string)
    (rs : RunState) : RunState :=
  let msg := data in
  let fullOutput' := fullOutput rs +:+ msg in
  let trimmed := Js.trim msg in
  if Js.truthy trimmed
  then mkRunState fullOutput' (stderrOutput rs)
                  (updates rs ++ [mkProgress trimmed socketId])
  else mkRunState fullOutput' (stderrOutput rs) (updates rs).

Definition on_stderr (data : string) (rs : RunState) : RunState :=
  mkRunState (fullOutput rs) (stderrOutput rs +:+ data) (updates rs).

(** How the promise settles: [resolve({duration})] or
    [reject(new Error(message))]. *)
Inductive Settled :=
| Resolve (duration : string)
| Reject (message : string).

Definition on_close (code : option Z) (rs : RunState) : Settled :=
  if is_zero code then
    let timeMatch := Duration.timeMatch (fullOutput rs) in
    Resolve (match timeMatch with Some d => d | None => "0.00" end)
  else
    Reject ("Exit code " +:+ Js.code_str code +:+ ": "
            +:+ Js.slice0 200 (stderrOutput rs)).

Definition on_child_event (socketId : option string) (rs : RunState)
    (ev : ChildEvent) : RunState :=
  match ev with
  | Stdout data => on_stdout socketId data rs
  | Stderr data => on_stderr data rs
  end.

(** [runPython(scriptName, args, job, socketId)] against a child that
    behaves as [child]: the progress updates made, and the settlement. *)
Definition runPython (scriptName : string) (args : list string)
    (socketId : option string) (child : Child) : list Progress * Settled :=
  let rs := foldl (on_child_event socketId) run_start (output child) in
  (updates rs, on_close (exitCode child) rs).

Record SignParams := mkSignParams {
  sp_name : string;
  sp_pageRange : string;
  sp_x : string;
  sp_y : string;
  sp_fontSize : string;
  sp_textColor : string;
  sp_fontStyle : string;
  sp_opacity : string
}.

(** [job.data]; a field that is not there is [None]. *)
Record JobData := mkJobData {
  inputPath : option string;
  socketId : option string;
  tool : option string;
  secretKey : option string;
  grayscale : option string;
  dpi : option string;
  level : option string;
  ext : option string;
  params : option SignParams;
  inputPaths : option (list string)
}.

Record Job := mkJob {
  job_id : string;
  job_name : string;
  job_data : JobData
}.

(** [`${x}`] for a field that may be [undefined]. *)
Definition tmpl (x : option string) : string :=
  from_option id "undefined" x.

(** The job routing table run at time [now]: [script], [args] and
    [outputFilename] after the [switch].  An argument that is [undefined]
    is [None].  The table itself fails (a [TypeError], [None] here) only
    when a sign job has no [params] object. *)
Definition routing_table (uploadDir : string) (jobName : string)
    (d : JobData) (now : Z)
  : option (string * list (option string) * string) :=
  let out (outputFilename : string) :=
    Some (Path.join uploadDir outputFilename) in
  if decide (jobName = "word-to-pdf") then
    let outputFilename := "word_" +:+ Js.num now +:+ ".pdf" in
    Some ("word_to_pdf.py", [inputPath d; out outputFilename], outputFilename)
  else if decide (jobName = "pdf-to-doc") then
    let outputFilename := "converted_" +:+ Js.num now +:+ ".docx" in
    Some ("convert.py",
          [inputPath d; tool d; out outputFilename; secretKey d],
          outputFilename)
  else if decide (jobName = "ppt-to-pdf") then
    let outputFilename := "ppt_" +:+ Js.num now +:+ ".pdf" in
    Some ("ppt_to_pdf.py", [inputPath d; out outputFilename], outputFilename)
  else if decide (jobName = "image-to-pdf") then
    let outputFilename := "image_" +:+ Js.num now +:+ ".pdf" in
    Some ("image_to_pdf.py", [inputPath d; out outputFilename], outputFilename)
  else if decide (jobName = "ocr-extract") then
    let outputFilename := "ocr_" +:+ Js.num now +:+ ".txt" in
    Some ("ocr_engine.py", [inputPath d; out outputFilename], outputFilename)
  else if decide (jobName = "compress-pdf") then
    let outputFilename := "compressed_" +:+ Js.num now +:+ ".pdf" in
    Some ("compressor.py",
          [inputPath d; out outputFilename; grayscale d; Some "true"; dpi d],
          outputFilename)
  else if decide (jobName = "compress-docx") then
    let outputFilename := "compressed_" +:+ Js.num now +:+ ".docx" in
    Some ("compress_docx.py",
          [inputPath d; out outputFilename; level d], outputFilename)
  else if decide (jobName = "compress-image") then
    let outputFilename :=
      "compressed_" +:+ Js.num now +:+ "." +:+ tmpl (ext d) in
    Some ("compress_image.py",
          [inputPath d; out outputFilename; level d; ext d], outputFilename)
  else if decide (jobName = "sign-pdf") then
    let outputFilename := "signed_" +:+ Js.num now +:+ ".pdf" in
    p ← params d;
    Some ("sign_pdf.py",
          [inputPath d; out outputFilename;
           Some (sp_name p); Some (sp_pageRange p); Some (sp_x p);
           Some (sp_y p); Some (sp_fontSize p); Some (sp_textColor p);
           Some (sp_fontStyle p); Some (sp_opacity p)],
          outputFilename)
  else if decide (jobName = "merge-pdf") then
    let outputFilename := "merged_" +:+ Js.num now +:+ ".pdf" in
    ps ← inputPaths d;
    Some ("merge_pdf.py", out outputFilename :: (Some <$> ps), outputFilename)
  else Some ("", [], "").

(** What the processor hands back to BullMQ. *)
Record ReturnValue := mkReturnValue {
  rv_socketId : option string;
  rv_result : ResponseData
}.

Inductive JobOutcome :=
| Completed (returnvalue : ReturnValue)
| Failed (failedReason : string).

Record Execution := mkExecution {
  spawned : option (list string);
  progress : list Progress;
  outcome : JobOutcome
}.

(** The processor on [job], started at time [now], with an engine that
    behaves as [child].  [None] stands for the runs that end in a
    [TypeError] of the runtime (a field the route needs is [undefined]);
    their message is not modelled. *)
Definition processor (uploadDir : string) (job : Job) (now : Z)
    (child : Child) : option Execution :=
  let socketId := socketId (job_data job) in
  let jobName := job_name job in
  '(script, args, outputFilename) ←
      routing_table uploadDir jobName (job_data job) now;
  if negb (Js.truthy script) then
    Some (mkExecution None [] (Failed ("Unknown job type: " +:+ jobName)))
  else
    args ← mapM id args;
    match runPython script args socketId child with
    | (ups, Resolve duration) =>
        Some (mkExecution (Some (spawn_argv script args)) ups
          (Completed (mkReturnValue socketId
             (mkResponseData "success"
                ("/download/" +:+ outputFilename)
                None (Some duration) (Some outputFilename)))))
    | (ups, Reject msg) =>
        Some (mkExecution (Some (spawn_argv script args))
          (ups ++ [mkProgress ("Error: " +:+ msg) socketId])
          (Failed msg))
    end.

(** The events BullMQ publishes for one execution of job [jobId]. *)
Inductive QueueEvent :=
| QProgress (jobId : string) (data : option Progress)
| QCompleted (jobId : string) (returnvalue : option ReturnValue)
| QFailed (jobId : string) (failedReason : string).

Definition queue_events (jobId : string) (e : Execution) : list QueueEvent :=
  ((λ u, QProgress jobId (Some u)) <$> progress e) ++
  [match outcome e with
   | Completed rv => QCompleted jobId (Some rv)
   | Failed reason => QFailed jobId reason
   end].

End Worker.

(* ===================================================================== *)
(** ** [server.js]: the direct executor and its routes *)
(* ===================================================================== *)

Module Server.

Record Options := mkOptions {
  script : string;
  args : list string;
  socketId : option string;
  inputPaths : list string;
  outputFilename : string
}.

(** The process state a request handler can touch. *)
Record State := mkState {
  life : Lifecycle;
  emitted : list Emit
}.

(** One [executeTask] call in progress: its options, the argv of the
    child it spawned, its [stderrBuf], the response object it was given
    and the process state. *)
Record Run := mkRun {
  options : Options;
  argv : list string;
  stderrBuf : string;
  res : Res;
  state : State
}.

(** [if (socketId) io.to(socketId).emit(ev, p)]. *)
Definition emit_to (socketId : option string) (ev : string) (p : Payload)
    (es : list Emit) : list Emit :=
  match socketId with
  | Some s => if Js.truthy s then es ++ [mkEmit s ev p] else es
  | None => es
  end.

Section Executor.
Variable uploadDir : string.
Variable ttl : Z.

Definition outputPath (o : Options) : string :=
  Path.join uploadDir (outputFilename o).

(** [executeTask(res, options)] up to the return: the child is spawned
    and the listeners are in place. *)
Definition executeTask (res : Res) (o : Options) (st : State) : Run :=
  mkRun o (spawn_argv (script o) (args o)) "" res st.

(** ['error'] listener. *)
Definition on_error (err_message : string) (r : Run) : Run :=
  let st := state r in
  let es := emit_to (socketId (options r)) "conversion-error"
              (PText ("Engine spawn failed: " +:+ err_message))
              (emitted st) in
  let res' :=
    if negb (headersSent (res r))
    then res_json (JSpawnFailed "Engine spawn failed" err_message)
                  (res_status 500 (res r))
    else res r in
  mkRun (options r) (argv r) (stderrBuf r) res' (mkState (life st) es).

(** [stdout] ['data'] listener. *)
Definition on_stdout (data : string) (r : Run) : Run :=
  let msg := Js.trim data in
  if Js.truthy msg then
    let st := state r in
    mkRun (options r) (argv r) (stderrBuf r) (res r)
      (mkState (life st)
         (emit_to (socketId (options r)) "conversion-status"
            (PText msg) (emitted st)))
  else r.

(** [stderr] ['data'] listener. *)
Definition on_stderr (data : string) (r : Run) : Run :=
  mkRun (options r) (argv r) (stderrBuf r +:+ data) (res r) (state r).

(** [const responseData = {...}] of the success branch, built from the
    disk as it is when the child has closed. *)
Definition responseData (o : Options) (life1 : Lifecycle) : ResponseData :=
  let stats_size :=
    match fs life1 !! outputPath o with
    | Some stats => size stats
    | None => 0
    end in
  mkResponseData "success" ("/download/" +:+ outputFilename o)
                 (Some stats_size) None None.

(** [const details = stderrBuf || 'No stderr output captured.'] *)
Definition details (stderrBuf : string) : string :=
  if Js.truthy stderrBuf then stderrBuf
  else "No stderr output captured.".

(** ['close'] listener. *)
Definition on_close (code : option Z) (r : Run) : Run :=
  let o := options r in
  let st := state r in
  let life1 :=
    foldl (λ l p, scheduleDeletion p ttl l) (life st) (inputPaths o) in
  if is_zero code then
    let responseData := responseData o life1 in
    let es := emit_to (socketId o) "conversion-finished"
                (PResult responseData) (emitted st) in
    let life2 := scheduleDeletion (outputPath o) ttl life1 in
    let res' :=
      if negb (headersSent (res r))
      then res_json (JResult responseData) (res r)
      else res r in
    mkRun o (argv r) (stderrBuf r) res' (mkState life2 es)
  else
    let details := details (stderrBuf r) in
    let life2 :=
      if existsSync (fs life1) (outputPath o)
      then scheduleDeletion (outputPath o) ttl life1
      else life1 in
    let es := emit_to (socketId o) "conversion-error"
                (PText ("Engine failed to process. Details: "
                        +:+ Js.slice0 1000 details))
                (emitted st) in
    let res' :=
      if negb (headersSent (res r))
      then res_json (JFailed "Processing failed" code
                             (Js.slice0 2000 details))
                    (res_status 500 (res r))
      else res r in
    mkRun o (argv r) (stderrBuf r) res' (mkState life2 es).

Definition on_child_event (r : Run) (ev : ChildEvent) : Run :=
  match ev with
  | Stdout data => on_stdout data r
  | Stderr data => on_stderr data r
  end.

(** The run driven to its end by a child that behaves as [child]. *)
Definition finish (child : Child) (r : Run) : Run :=
  on_close (exitCode child) (foldl on_child_event r (output child)).

(** A route either answers at once or calls [executeTask]. *)
Inductive Handled :=
| Responded (res : Res)
| Executing (run : Run).

Definition reject (msg : string) : Handled :=
  Responded (res_json (JError msg) (res_status 400 res_fresh)).

(** [app.post('/convert', ...)], handled at time [now]. *)
Definition post_convert (req : Req) (now : Z) (st : State) : Handled :=
  match req_file req with
  | None => reject "No file uploaded"
  | Some f =>
      let tool :=
        Js.toLowerCase (Js.or_default (body_tool (req_body req)) "pdf2doc") in
      let secretKey := Js.or_default (body_secretKey (req_body req)) "" in
      let outputFilename := "converted_" +:+ Js.num now +:+ ".docx" in
      if negb (Js.truthy secretKey) then reject "Missing encryption key"
      else
        Executing (executeTask res_fresh
          (mkOptions "convert.py"
             [path_resolve (path f); tool;
              Path.join uploadDir outputFilename; secretKey]
             (body_socketId (req_body req))
             [path f]
             outputFilename) st)
  end.

(** [app.post('/ocr-extract', ...)]. *)
Definition post_ocr_extract (req : Req) (now : Z) (st : State) : Handled :=
  match req_file req with
  | None => reject "No image provided"
  | Some f =>
      let outputFilename := "ocr_" +:+ Js.num now +:+ ".txt" in
      Executing (executeTask res_fresh
        (mkOptions "ocr_engine.py"
           [path_resolve (path f); Path.join uploadDir outputFilename]
           (body_socketId (req_body req))
           [path f]
           outputFilename) st)
  end.

(** [app.post('/compress-pdf', ...)]; the legacy [/compress] route has
    the same body. *)
Definition post_compress_pdf (req : Req) (now : Z) (st : State) : Handled :=
  match req_file req with
  | None => reject "No file uploaded"
  | Some f =>
      let outputFilename := "compressed_" +:+ Js.num now +:+ ".pdf" in
      let grayscale := Js.or_default (body_grayscale (req_body req)) "false" in
      let dpi := Js.or_default (body_dpi (req_body req)) "150" in
      Executing (executeTask res_fresh
        (mkOptions "compressor.py"
           [path_resolve (path f);
            Path.join uploadDir outputFilename;
            grayscale;
            "true";
            dpi]
           (body_socketId (req_body req))
           [path f]
           outputFilename) st)
  end.

End Executor.

End Server.

(* ===================================================================== *)
(** ** [server2.js]: the queue gateway and the event bridge *)
(* ===================================================================== *)

Module Gateway.

(** The producer's state: the lifecycle manager and the jobs it has put
    on [conversionQueue]. *)
Record State := mkState {
  life : Lifecycle;
  queue : list Worker.Job;
  nextJobId : Z
}.

Definition init (disk : gmap string Stats) : State :=
  mkState (lifecycle_init disk) [] 1.

(** [await conversionQueue.add(name, data)]. *)
Definition queue_add (name : string) (data : Worker.JobData) (st : State)
  : State :=
  mkState (life st)
          (queue st ++ [Worker.mkJob (Js.num (nextJobId st)) name data])
          (nextJobId st + 1).

Definition schedule (p : string) (ttl : Z) (st : State) : State :=
  mkState (scheduleDeletion p ttl (life st)) (queue st) (nextJobId st).

Definition queued : Res :=
  res_json (JQueued "queued" "Queued...") res_fresh.

Definition no_file : Res :=
  res_json (JError "No file") (res_status 400 res_fresh).

Section Routes.
Variable ttl : Z.

(** [app.post('/convert', ...)]. *)
Definition post_convert (req : Req) (st : State) : Res * State :=
  match req_file req with
  | None => (no_file, st)
  | Some f =>
      let st1 :=
        queue_add "pdf-to-doc"
          (Worker.mkJobData
             (Some (path f))
             (body_socketId (req_body req))
             (Some (Js.toLowerCase
                      (Js.or_default (body_tool (req_body req)) "pdf2doc")))
             (Some (Js.or_default (body_secretKey (req_body req)) ""))
             None None None None None None) st in
      (queued, schedule (path f) ttl st1)
  end.

(** [app.post('/ocr-extract', ...)]. *)
Definition post_ocr_extract (req : Req) (st : State) : Res * State :=
  match req_file req with
  | None => (res_json (JError "No image") (res_status 400 res_fresh), st)
  | Some f =>
      let st1 :=
        queue_add "ocr-extract"
          (Worker.mkJobData
             (Some (path f))
             (body_socketId (req_body req))
             None None None None None None None None) st in
      (queued, schedule (path f) ttl st1)
  end.

(** [app.post('/compress-pdf', ...)]; the legacy [/compress] alias has
    the same body. *)
Definition post_compress_pdf (req : Req) (st : State) : Res * State :=
  match req_file req with
  | None => (no_file, st)
  | Some f =>
      let st1 :=
        queue_add "compress-pdf"
          (Worker.mkJobData
             (Some (path f))
             (body_socketId (req_body req))
             None None
             (Some (Js.or_default (body_grayscale (req_body req)) "false"))
             (Some (Js.or_default (body_dpi (req_body req)) "150"))
             None None None None) st in
      (queued, schedule (path f) ttl st1)
  end.

End Routes.

(** What a [queueEvents] listener does. *)
Inductive Action :=
| Forward (e : Emit)
| LogError (line : string).

(** The three listeners on [queueEvents]. *)
Definition bridge (ev : Worker.QueueEvent) : list Action :=
  match ev with
  | Worker.QCompleted jobId returnvalue =>
      match returnvalue with
      | Some rv =>
          match Worker.rv_socketId rv with
          | Some s =>
              if Js.truthy s
              then [Forward (mkEmit s "conversion-finished"
                               (PResult (Worker.rv_result rv)))]
              else []
          | None => []
          end
      | None => []
      end
  | Worker.QProgress jobId data =>
      match data with
      | Some d =>
          match Worker.progress_socketId d with
          | Some s =>
              if Js.truthy s
              then [Forward (mkEmit s "conversion-status"
                               (PText (Worker.message d)))]
              else []
          | None => []
          end
      | None => []
      end
  | Worker.QFailed jobId failedReason =>
      [LogError ("Job " +:+ jobId +:+ " failed: " +:+ failedReason)]
  end.

Definition forwarded (acts : list Action) : list Emit :=
  omap (λ a, match a with Forward e => Some e | LogError _ => None end) acts.

(** Everything the bridge sends for a stream of queue events. *)
Definition bridge_all (evs : list Worker.QueueEvent) : list Emit :=
  forwarded (evs ≫= bridge).

End Gateway.

(** The [job.data] the gateway builds for a [compress-pdf] request. *)
Definition compress_job_data (req : Req) (f : File) : Worker.JobData :=
  Worker.mkJobData (Some (path f)) (body_socketId (req_body req)) None None
    (Some (Js.or_default (body_grayscale (req_body req)) "false"))
    (Some (Js.or_default (body_dpi (req_body req)) "150"))
    None None None None.

(* ===================================================================== *)
(** ** Further observations on the lifecycle state *)
(* ===================================================================== *)

(** [deletionTimers.size], which [/cleanup-status] reports as
    [scheduledCount] ([server.js]) or [scheduled] ([server2.js]). *)
Definition scheduledCount (st : Lifecycle) : nat := base.size (deletionTimers st).

(** Every armed timer has a handle older than the next one to be handed
    out: [setTimeout] never returns a handle twice. *)
Definition timer_ids_fresh (st : Lifecycle) : Prop :=
  ∀ t, t ∈ timers st → (timerId t < nextTimer st)%nat.

(** [inputPaths.forEach(p => scheduleDeletion(p))], and
    [req.files.forEach(f => scheduleDeletion(f.path))]. *)
Definition schedule_all (ps : list string) (ttl : Z) (st : Lifecycle)
  : Lifecycle :=
  foldl (λ l p, scheduleDeletion p ttl l) st ps.

(* ===================================================================== *)
(** ** The executor's listeners as one event handler *)
(* ===================================================================== *)

(** The progress lines of a run: each chunk of standard output, trimmed,
    when something is left of it. *)
Definition status_messages (evs : list ChildEvent) : list string :=
  omap (λ ev, match ev with
              | Stdout data =>
                  let msg := Js.trim data in
                  if Js.truthy msg then Some msg else None
              | Stderr _ => None
              end) evs.

Module Listeners.

(** The events of the child that [executeTask] listens to. *)
Inductive Listener :=
| OnError (err_message : string)
| OnData (ev : ChildEvent)
| OnClose (code : option Z).

Definition listen (uploadDir : string) (ttl : Z) (r : Server.Run)
    (l : Listener) : Server.Run :=
  match l with
  | OnError err_message => Server.on_error err_message r
  | OnData ev => Server.on_child_event r ev
  | OnClose code => Server.on_close uploadDir ttl code r
  end.

(** The listeners run one after the other, in the order the events come. *)
Definition run (uploadDir : string) (ttl : Z) (r : Server.Run)
    (ls : list Listener) : Server.Run :=
  foldl (listen uploadDir ttl) r ls.

(** The name of the event that ends a run for the client. *)
Definition terminal_event (code : option Z) : string :=
  if is_zero code then "conversion-finished" else "conversion-error".

End Listeners.

(** The job names the worker's routing table knows. *)
Definition job_types : list string :=
  ["word-to-pdf"; "pdf-to-doc"; "ppt-to-pdf"; "image-to-pdf"; "ocr-extract";
   "compress-pdf"; "compress-docx"; "compress-image"; "sign-pdf"; "merge-pdf"].

(* ===================================================================== *)
(** ** The remaining conversion routes of [server.js] and [server2.js] *)
(* ===================================================================== *)

(** A request as multer leaves it, for the routes that read more than [Req]
    holds: [req.file] after [upload.single], [req.files] after
    [upload.array] (an array) or after [upload.fields] (an object of
    arrays), and [req.body].  A part that multer did not set is [None]. *)
Record Upload := mkUpload {
  up_file : option File;
  up_array : option (list File);
  up_fields : option (gmap string (list File));
  up_body : gmap string string
}.

(** A request together with the route it was posted to. *)
Inductive Submission :=
| WordToPdf (req : Req)
| PptToPdf (req : Req)
| SignPdf (up : Upload)
| MergePdf (up : Upload)
| Convert (req : Req)
| ImageToPdf (req : Req)
| OcrExtract (req : Req)
| CompressPdf (req : Req)
| CompressDocx (up : Upload)
| CompressImage (up : Upload)
| Compress (req : Req).

Module Routes.

(** [s.slice(1)]. *)
Definition slice1 (s : string) : string :=
  match s with
  | EmptyString => EmptyString
  | String _ s' => s'
  end.

(** [req.files['pdf'] ? req.files['pdf'][0] : null], followed by the test
    [!file]: an array that is there but empty gives [undefined], which the
    test treats like [null]. *)
Definition first_pdf (fields : gmap string (list File)) : option File :=
  match fields !! "pdf" with
  | Some (f :: _) => Some f
  | Some [] => None
  | None => None
  end.

Section Routes.
Variable uploadDir : string.
Variable ttl : Z.
(** [path.extname], as Node computes it. *)
Variable extname : string → string.

(** [path.extname(req.file.originalname).toLowerCase().slice(1)]. *)
Definition ext_of (f : File) : string :=
  slice1 (Js.toLowerCase (extname (originalname f))).

(** *** [server.js] *)

(** The routes that pass the upload and the output path only. *)
Definition server_plain (no_file script prefix suffix : string)
    (req : Req) (now : Z) (st : Server.State) : Server.Handled :=
  match req_file req with
  | None => Server.reject no_file
  | Some f =>
      let outputFilename := prefix +:+ Js.num now +:+ suffix in
      Server.Executing (Server.executeTask res_fresh
        (Server.mkOptions script
           [path_resolve (path f); Path.join uploadDir outputFilename]
           (body_socketId (req_body req))
           [path f]
           outputFilename) st)
  end.

(** [app.post('/word-to-pdf-convert', ...)]. *)
Definition server_word_to_pdf : Req → Z → Server.State → Server.Handled :=
  server_plain "No file" "word_to_pdf.py" "word_" ".pdf".

(** [app.post('/ppt-to-pdf-convert', ...)]. *)
Definition server_ppt_to_pdf : Req → Z → Server.State → Server.Handled :=
  server_plain "No file" "ppt_to_pdf.py" "ppt_" ".pdf".

(** [app.post('/image-to-pdf-convert', ...)]. *)
Definition server_image_to_pdf : Req → Z → Server.State → Server.Handled :=
  server_plain "No file" "image_to_pdf.py" "image_" ".pdf".

(** [app.post('/sign-pdf', ...)].  [None]: [req.files] is [undefined] and
    indexing it raises a [TypeError]. *)
Definition server_sign_pdf (up : Upload) (now : Z) (st : Server.State)
  : option Server.Handled :=
  fields ← up_fields up;
  match first_pdf fields with
  | None => Some (Server.reject "No PDF")
  | Some file =>
      let outputFilename := "signed_" +:+ Js.num now +:+ ".pdf" in
      let b := up_body up in
      Some (Server.Executing (Server.executeTask res_fresh
        (Server.mkOptions "sign_pdf.py"
           [path_resolve (path file);
            Path.join uploadDir outputFilename;
            Js.or_default (b !! "name") "Sign";
            Js.or_default (b !! "pageRange") "all";
            Js.or_default (b !! "x") "50";
            Js.or_default (b !! "y") "50";
            Js.or_default (b !! "fontSize") "24";
            Js.or_default (b !! "textColor") "#000";
            Js.or_default (b !! "fontStyle") "script";
            Js.or_default (b !! "opacity") "1"]
           (b !! "socketId")
           [path file]
           outputFilename) st))
  end.

(** [!req.files || req.files.length < 2]. *)
Definition too_few (files : option (list File)) : bool :=
  match files with
  | None => true
  | Some fs => Nat.ltb (length fs) 2
  end.

(** [app.post('/merge-pdf', ...)]. *)
Definition server_merge_pdf (up : Upload) (now : Z) (st : Server.State)
  : Server.Handled :=
  if too_few (up_array up) then Server.reject "Need 2+ files"
  else
    let files := default [] (up_array up) in
    let outputFilename := "merged_" +:+ Js.num now +:+ ".pdf" in
    Server.Executing (Server.executeTask res_fresh
      (Server.mkOptions "merge_pdf.py"
         (Path.join uploadDir outputFilename
            :: ((λ f, path_resolve (path f)) <$> files))
         (up_body up !! "socketId")
         (path <$> files)
         outputFilename) st).

(** [app.post('/compress-docx', ...)]. *)
Definition server_compress_docx (up : Upload) (now : Z) (st : Server.State)
  : Server.Handled :=
  match up_file up with
  | None => Server.reject "No file uploaded"
  | Some f =>
      let outputFilename := "compressed_" +:+ Js.num now +:+ ".docx" in
      let level := Js.or_default (up_body up !! "level") "recommended" in
      Server.Executing (Server.executeTask res_fresh
        (Server.mkOptions "compress_docx.py"
           [path_resolve (path f); Path.join uploadDir outputFilename; level]
           (up_body up !! "socketId")
           [path f]
           outputFilename) st)
  end.

(** [app.post('/compress-image', ...)]. *)
Definition server_compress_image (up : Upload) (now : Z) (st : Server.State)
  : Server.Handled :=
  match up_file up with
  | None => Server.reject "No file uploaded"
  | Some f =>
      let ext := ext_of f in
      let outputFilename := "compressed_" +:+ Js.num now +:+ "." +:+ ext in
      let level := Js.or_default (up_body up !! "level") "recommended" in
      Server.Executing (Server.executeTask res_fresh
        (Server.mkOptions "compress_image.py"
           [path_resolve (path f); Path.join uploadDir outputFilename;
            level; ext]
           (up_body up !! "socketId")
           [path f]
           outputFilename) st)
  end.

(** [app.post('/compress', ...)], the legacy route. *)
Definition server_compress (req : Req) (now : Z) (st : Server.State)
  : Server.Handled :=
  match req_file req with
  | None => Server.reject "No file uploaded"
  | Some f =>
      let outputFilename := "compressed_" +:+ Js.num now +:+ ".pdf" in
      let grayscale := Js.or_default (body_grayscale (req_body req)) "false" in
      let dpi := Js.or_default (body_dpi (req_body req)) "150" in
      Server.Executing (Server.executeTask res_fresh
        (Server.mkOptions "compressor.py"
           [path_resolve (path f); Path.join uploadDir outputFilename;
            grayscale; "true"; dpi]
           (body_socketId (req_body req))
           [path f]
           outputFilename) st)
  end.

(** The conversion routes of [server.js]. *)
Definition server_handle (sub : Submission) (now : Z) (st : Server.State)
  : option Server.Handled :=
  match sub with
  | WordToPdf req => Some (server_word_to_pdf req now st)
  | PptToPdf req => Some (server_ppt_to_pdf req now st)
  | SignPdf up => server_sign_pdf up now st
  | MergePdf up => Some (server_merge_pdf up now st)
  | Convert req => Some (Server.post_convert uploadDir req now st)
  | ImageToPdf req => Some (server_image_to_pdf req now st)
  | OcrExtract req => Some (Server.post_ocr_extract uploadDir req now st)
  | CompressPdf req => Some (Server.post_compress_pdf uploadDir req now st)
  | CompressDocx up => Some (server_compress_docx up now st)
  | CompressImage up => Some (server_compress_image up now st)
  | Compress req => Some (server_compress req now st)
  end.

(** *** [server2.js] *)

Definition bad_request (msg : string) : Res :=
  res_json (JError msg) (res_status 400 res_fresh).

(** [{inputPath: ..., socketId: ...}] with the other fields as given. *)
Definition job_data (inputPath : string) (socketId : option string)
    (level ext : option string) : Worker.JobData :=
  Worker.mkJobData (Some inputPath) socketId None None None None
                   level ext None None.

(** The routes that enqueue the upload and the socket id only. *)
Definition gateway_plain (name : string) (req : Req) (st : Gateway.State)
  : Res * Gateway.State :=
  match req_file req with
  | None => (bad_request "No file", st)
  | Some f =>
      let st1 :=
        Gateway.queue_add name
          (job_data (path f) (body_socketId (req_body req)) None None) st in
      (Gateway.queued, Gateway.schedule (path f) ttl st1)
  end.

(** [app.post('/word-to-pdf-convert', ...)], [/ppt-to-pdf-convert],
    [/image-to-pdf-convert]. *)
Definition gateway_word_to_pdf := gateway_plain "word-to-pdf".
Definition gateway_ppt_to_pdf := gateway_plain "ppt-to-pdf".
Definition gateway_image_to_pdf := gateway_plain "image-to-pdf".

(** [req.files.forEach(f => scheduleDeletion(f.path))]. *)
Definition gateway_schedule_all (ps : list string) (st : Gateway.State)
  : Gateway.State :=
  Gateway.mkState (schedule_all ps ttl (Gateway.life st))
                  (Gateway.queue st) (Gateway.nextJobId st).

(** [app.post('/merge-pdf', ...)]. *)
Definition gateway_merge_pdf (up : Upload) (st : Gateway.State)
  : Res * Gateway.State :=
  if too_few (up_array up) then (bad_request "Need 2+ files", st)
  else
    let files := default [] (up_array up) in
    let st1 := gateway_schedule_all (path <$> files) st in
    (Gateway.queued,
     Gateway.queue_add "merge-pdf"
       (Worker.mkJobData None (up_body up !! "socketId") None None None None
                         None None None (Some (path <$> files))) st1).

(** [app.post('/sign-pdf', ...)].  [None]: [req.files] is [undefined]. *)
Definition gateway_sign_pdf (up : Upload) (st : Gateway.State)
  : option (Res * Gateway.State) :=
  fields ← up_fields up;
  match first_pdf fields with
  | None => Some (bad_request "No PDF", st)
  | Some file =>
      let b := up_body up in
      let st1 := Gateway.schedule (path file) ttl st in
      Some (Gateway.queued,
        Gateway.queue_add "sign-pdf"
          (Worker.mkJobData (Some (path file)) (b !! "socketId")
             None None None None None None
             (Some (Worker.mkSignParams
                (Js.or_default (b !! "name") "Sign")
                (Js.or_default (b !! "pageRange") "all")
                (Js.or_default (b !! "x") "50")
                (Js.or_default (b !! "y") "50")
                (Js.or_default (b !! "fontSize") "24")
                (Js.or_default (b !! "textColor") "#000")
                (Js.or_default (b !! "fontStyle") "script")
                (Js.or_default (b !! "opacity") "1")))
             None) st1)
  end.

(** [app.post('/compress-docx', ...)]. *)
Definition gateway_compress_docx (up : Upload) (st : Gateway.State)
  : Res * Gateway.State :=
  match up_file up with
  | None => (bad_request "No file", st)
  | Some f =>
      let st1 :=
        Gateway.queue_add "compress-docx"
          (job_data (path f) (up_body up !! "socketId")
             (Some (Js.or_default (up_body up !! "level") "recommended"))
             None) st in
      (Gateway.queued, Gateway.schedule (path f) ttl st1)
  end.

(** [app.post('/compress-image', ...)]. *)
Definition gateway_compress_image (up : Upload) (st : Gateway.State)
  : Res * Gateway.State :=
  match up_file up with
  | None => (bad_request "No file", st)
  | Some f =>
      let st1 :=
        Gateway.queue_add "compress-image"
          (job_data (path f) (up_body up !! "socketId")
             (Some (Js.or_default (up_body up !! "level") "recommended"))
             (Some (ext_of f))) st in
      (Gateway.queued, Gateway.schedule (path f) ttl st1)
  end.

(** [app.post('/compress', ...)], the legacy alias. *)
Definition gateway_compress (req : Req) (st : Gateway.State)
  : Res * Gateway.State :=
  match req_file req with
  | None => (bad_request "No file", st)
  | Some f =>
      let st1 :=
        Gateway.queue_add "compress-pdf"
          (Worker.mkJobData
             (Some (path f))
             (body_socketId (req_body req))
             None None
             (Some (Js.or_default (body_grayscale (req_body req)) "false"))
             (Some (Js.or_default (body_dpi (req_body req)) "150"))
             None None None None) st in
      (Gateway.queued, Gateway.schedule (path f) ttl st1)
  end.

(** The conversion routes of [server2.js]. *)
Definition gateway_handle (sub : Submission) (st : Gateway.State)
  : option (Res * Gateway.State) :=
  match sub with
  | WordToPdf req => Some (gateway_word_to_pdf req st)
  | PptToPdf req => Some (gateway_ppt_to_pdf req st)
  | SignPdf up => gateway_sign_pdf up st
  | MergePdf up => Some (gateway_merge_pdf up st)
  | Convert req => Some (Gateway.post_convert ttl req st)
  | ImageToPdf req => Some (gateway_image_to_pdf req st)
  | OcrExtract req => Some (Gateway.post_ocr_extract ttl req st)
  | CompressPdf req => Some (Gateway.post_compress_pdf ttl req st)
  | CompressDocx up => Some (gateway_compress_docx up st)
  | CompressImage up => Some (gateway_compress_image up st)
  | Compress req => Some (gateway_compress req st)
  end.

End Routes.

(** The upload paths a job was built from. *)
Definition job_inputs (d : Worker.JobData) : list string :=
  match Worker.inputPath d, Worker.inputPaths d with
  | Some p, _ => [p]
  | None, Some ps => ps
  | None, None => []
  end.

End Routes.

(* ===================================================================== *)
(** ** [Solution.myAtoi] (Java) *)
(* ===================================================================== *)

Module Solution.

(** Characters are the 8-bit ones: the method compares them with [' '],
    ['-'], ['+'], ['0'] and ['9'] only.  Integers of type [long] and [int]
    are integers with the wrap-around written out. *)

Definition Integer_MAX_VALUE : Z := 2147483647.
Definition Integer_MIN_VALUE : Z := -2147483648.
Definition Long_MAX_VALUE : Z := 9223372036854775807.

(** Two's complement wrap-around to [bits] bits. *)
Definition wrap (bits : Z) (v : Z) : Z :=
  (v + 2 ^ (bits - 1)) mod 2 ^ bits - 2 ^ (bits - 1).

(** [a * b] on [long], and the cast [(int) v]. *)
Definition long_mul (a b : Z) : Z := wrap 64 (a * b).
Definition int_cast (v : Z) : Z := wrap 32 v.

(** [c >= '0' && c <= '9']. *)
Definition is_digit (c : ascii) : bool :=
  (N_of_ascii "0" <=? N_of_ascii c)%N && (N_of_ascii c <=? N_of_ascii "9")%N.

(** The first loop: a character that is not a blank is appended, a blank
    only once something has been appended. *)
Definition append_unless_leading (sb : list ascii) (c : ascii) : list ascii :=
  if negb (Ascii.eqb c " ") then (sb ++ [c])%list
  else if (0 <? length sb)%nat then (sb ++ [c])%list
  else sb.

Definition strip (s : list ascii) : list ascii :=
  foldl append_unless_leading [] s.

(** The second loop.  Every branch of its body leaves the loop, so the body
    runs at most once, at index 0: the flag [neg] and the buffer after it. *)
Definition read_sign (sb : list ascii) : bool * list ascii :=
  match sb !! 0%nat with
  | Some c =>
      if Ascii.eqb c "-" then (true, delete 0%nat sb)
      else if Ascii.eqb c "+" then (false, delete 0%nat sb)
      else (false, sb)
  | None => (false, sb)
  end.

(** The third loop, from index [i] on: [sb.deleteCharAt(i)] shortens the
    buffer under the running index, which moves on all the same.  [steps]
    bounds the number of iterations; [None] when it does not suffice. *)
Fixpoint delete_zeros (steps : nat) (i : nat) (sb : list ascii)
  : option (list ascii) :=
  if (i <? length sb)%nat then
    match steps with
    | O => None
    | S steps' =>
        match sb !! i with
        | Some c =>
            if Ascii.eqb c "0" then delete_zeros steps' (S i) (delete i sb)
            else delete_zeros steps' (S i) sb
        | None => None
        end
    end
  else Some sb.

(** The fourth loop: characters are copied up to the first one that is not
    a digit. *)
Fixpoint leading_digits (sb : list ascii) : list ascii :=
  match sb with
  | [] => []
  | c :: rest => if is_digit c then c :: leading_digits rest else []
  end.

(** The number a string of digits denotes. *)
Definition digit_value (c : ascii) : Z :=
  Z.of_N (N_of_ascii c) - Z.of_N (N_of_ascii "0").
Definition decimal (ds : list ascii) : Z :=
  foldl (λ acc c, 10 * acc + digit_value c) 0 ds.

(** How a call ends. *)
Inductive Outcome :=
| Return (v : Z)
| NumberFormatException.

(** [Long.valueOf(String)] on the strings the method passes it, which are
    not empty and hold the digits 0 to 9 only: the number denoted, unless
    it exceeds [Long.MAX_VALUE]. *)
Definition Long_valueOf (ds : list ascii) : option Z :=
  if (decimal ds <=? Long_MAX_VALUE)%Z then Some (decimal ds) else None.

(** One call: the lines printed on the way, and how the call ends.  [None]
    only if the third loop were not to end within as many iterations as
    the buffer is long. *)
Definition myAtoi_run (s : string) : option (list string * Outcome) :=
  let sb := strip (list_ascii_of_string s) in
  let out1 := [string_of_list_ascii sb] in
  let '(neg, sb) := read_sign sb in
  let out2 := (out1 ++ [string_of_list_ascii sb])%list in
  sb ← delete_zeros (length sb) 0 sb;
  let out3 := (out2 ++ [string_of_list_ascii sb])%list in
  let sb2 := leading_digits sb in
  let out4 := (out3 ++ [string_of_list_ascii sb2])%list in
  if (length sb2 =? 0)%nat then Some (out4, Return 0)
  else
    match Long_valueOf sb2 with
    | None => Some (out4, NumberFormatException)
    | Some v =>
        let v := if neg then long_mul v (-1) else v in
        if (v >? Integer_MAX_VALUE)%Z then Some (out4, Return Integer_MAX_VALUE)
        else if (v <? Integer_MIN_VALUE)%Z then
          Some (out4, Return Integer_MIN_VALUE)
        else Some (out4, Return (int_cast v))
    end.

Definition myAtoi (s : string) : option Outcome := snd <$> myAtoi_run s.

(** [main]: the lines on standard output. *)
Definition main : option (list string) :=
  '(out, r) ← myAtoi_run "0-1";
  match r with
  | Return v => Some (out ++ [pretty v])%list
  | NumberFormatException => None
  end.

(** *** What the loops compute *)

(** A string without its leading blanks. *)
Fixpoint drop_blanks (s : list ascii) : list ascii :=
  match s with
  | [] => []
  | c :: rest => if Ascii.eqb c " " then drop_blanks rest else s
  end.

(** A string with each ['0'] removed that does not directly follow a
    removed one: the character after a removed ['0'] is kept, whatever it
    is. *)
Fixpoint drop_zero_keep_next (s : list ascii) : list ascii :=
  match s with
  | [] => []
  | c :: rest =>
      if Ascii.eqb c "0" then
        match rest with
        | [] => []
        | d :: rest' => d :: drop_zero_keep_next rest'
        end
      else c :: drop_zero_keep_next rest
  end.

(** [n] blanks. *)
Definition blanks (n : nat) : string :=
  string_of_list_ascii (replicate n " "%char).

(** [v] brought into the range of [int]. *)
Definition clamp (v : Z) : Z :=
  if (v >? Integer_MAX_VALUE)%Z then Integer_MAX_VALUE
  else if (v <? Integer_MIN_VALUE)%Z then Integer_MIN_VALUE
  else v.

(** The digits 1 to 9. *)
Definition is_nonzero_digit (c : ascii) : bool :=
  is_digit c && negb (Ascii.eqb c "0").

End Solution.

(* ===================================================================== *)
(** ** Concrete scenarios *)
(* ===================================================================== *)

Module Scenario.

Definition app_dir : string := "/srv/app".
Definition uploads : string := uploadDir app_dir.
Definition ttl : Z := FILE_TTL_MS None.

Definition a_pdf : File :=
  mkFile "/srv/app/uploads/1700000000000-a.pdf" "a.pdf" "1700000000000-a.pdf".
Definition scan_png : File :=
  mkFile "/srv/app/uploads/1700000000000-scan.png" "scan.png"
         "1700000000000-scan.png".

(** The uploads are on disk; no output has been written. *)
Definition disk : gmap string Stats :=
  {[ path a_pdf := mkStats true 1700000000000 1700000000000 2048;
     path scan_png := mkStats true 1700000000000 1700000000000 4096 ]}.

(** [compress-pdf] with [{grayscale: "true", dpi: "100"}]. *)
Definition compress_req : Req :=
  mkReq (Some a_pdf)
        (mkReqBody (Some "sock1") None None (Some "true") (Some "100")).

(** [compress-pdf] with no options. *)
Definition compress_plain_req : Req :=
  mkReq (Some a_pdf) (mkReqBody (Some "sock1") None None None None).

Definition ocr_req : Req :=
  mkReq (Some scan_png) (mkReqBody (Some "sock1") None None None None).

(** [pdf-to-doc] with an empty [secretKey]. *)
Definition convert_no_key_req : Req :=
  mkReq (Some a_pdf)
        (mkReqBody (Some "sock1") (Some "pdf2doc") (Some "") None None).

(** Engines. *)
Definition timed_success : Child :=
  mkChild [Stdout "Compressing..."; Stdout "Race won in 0.4532s"] (Some 0).
Definition quiet_success : Child :=
  mkChild [Stdout "done"] (Some 0).
Definition ocr_failure : Child :=
  mkChild [Stderr "tesseract not found"] (Some 1).

Definition compress_job : Worker.Job :=
  Worker.mkJob "1" "compress-pdf"
    (Worker.mkJobData (Some (path a_pdf)) (Some "sock1") None None
                      (Some "true") (Some "100") None None None None).

Definition ocr_job : Worker.Job :=
  Worker.mkJob "2" "ocr-extract"
    (Worker.mkJobData (Some (path scan_png)) (Some "sock1") None None
                      None None None None None None).

Definition unknown_job : Worker.Job :=
  Worker.mkJob "3" "pdf-to-jpg"
    (Worker.mkJobData (Some (path a_pdf)) (Some "sock1") None None
                      None None None None None None).

Definition server_state : Server.State :=
  Server.mkState (lifecycle_init disk) [].

(** What [/ocr-extract] of [server.js] hands to [executeTask] at time
    [1700000000500]. *)
Definition ocr_options : Server.Options :=
  Server.mkOptions "ocr_engine.py"
    ["/srv/app/uploads/1700000000000-scan.png";
     "/srv/app/uploads/ocr_1700000000500.txt"]
    (Some "sock1")
    ["/srv/app/uploads/1700000000000-scan.png"]
    "ocr_1700000000500.txt".

(** What the worker is expected to do with [ocr_job] when the engine
    behaves as [ocr_failure]. *)
Definition ocr_failed_execution : Worker.Execution :=
  Worker.mkExecution
    (Some ["python"; "ocr_engine.py";
           "/srv/app/uploads/1700000000000-scan.png";
           "/srv/app/uploads/ocr_1700000000500.txt"])
    [Worker.mkProgress "Error: Exit code 1: tesseract not found"
                       (Some "sock1")]
    (Worker.Failed "Exit code 1: tesseract not found").

(** What the worker is expected to do with [compress_job] at time
    [1700000000500] when the engine behaves as [timed_success]. *)
Definition timed_execution : Worker.Execution :=
  Worker.mkExecution
    (Some ["python"; "compressor.py";
           "/srv/app/uploads/1700000000000-a.pdf";
           "/srv/app/uploads/compressed_1700000000500.pdf";
           "true"; "true"; "100"])
    [Worker.mkProgress "Compressing..." (Some "sock1");
     Worker.mkProgress "Race won in 0.4532s" (Some "sock1")]
    (Worker.Completed
       (Worker.mkReturnValue (Some "sock1")
          (mkResponseData "success"
             "/download/compressed_1700000000500.pdf"
             None (Some "0.4532")
             (Some "compressed_1700000000500.pdf")))).

Definition b_pdf : File :=
  mkFile "/srv/app/uploads/1700000000001-b.pdf" "b.pdf" "1700000000001-b.pdf".

(** [path.extname] on the names the scenarios upload. *)
Definition extname (name : string) : string :=
  if decide (name = "scan.png") then ".png"
  else if decide (name = "a.pdf") then ".pdf"
  else if decide (name = "b.pdf") then ".pdf"
  else "".

(** [/merge-pdf] with two documents. *)
Definition merge_upload : Upload :=
  mkUpload None (Some [a_pdf; b_pdf]) None {[ "socketId" := "sock1" ]}.

(** [/merge-pdf] with one document only. *)
Definition merge_single_upload : Upload :=
  mkUpload None (Some [a_pdf]) None {[ "socketId" := "sock1" ]}.

(** [/sign-pdf] with a name and the other parameters left out. *)
Definition sign_upload : Upload :=
  mkUpload None None (Some {[ "pdf" := [a_pdf] ]})
           (<[ "name" := "Ada" ]> {[ "socketId" := "sock1" ]}).

(** [/compress-image] of a scan. *)
Definition image_upload : Upload :=
  mkUpload (Some scan_png) None None {[ "socketId" := "sock1" ]}.

End Scenario.

(* ===================================================================== *)
(** * Properties *)
(* ===================================================================== *)

(** ** Strings and paths *)

Example timeMatch_simple :
  Duration.timeMatch "Race won in 0.4532s" = Some "0.4532".
Proof. reflexivity. Qed.

Example timeMatch_leftmost :
  Duration.timeMatch "won in 12x, won in 3s, won in 4.5s" = Some "3".
Proof. reflexivity. Qed.

Example timeMatch_dots : Duration.timeMatch "won in 1.2.3s" = Some "1.2.3".
Proof. reflexivity. Qed.

Example timeMatch_needs_digits : Duration.timeMatch "won in s" = None.
Proof. reflexivity. Qed.

Example trim_both : Js.trim "  50% done
" = "50% done".
Proof. reflexivity. Qed.

Example split_upload :
  Path.split "/srv/app/uploads/a.pdf" = Some ("/srv/app/uploads", "a.pdf").
Proof. reflexivity. Qed.

Example slice0_short : Js.slice0 200 "tesseract not found" = "tesseract not found".
Proof. reflexivity. Qed.

Example toLowerCase_tool : Js.toLowerCase "PDF2Doc" = "pdf2doc".
Proof. reflexivity. Qed.

Lemma app_empty_r (s : string) : s +:+ "" = s.
Proof. induction s as [|c s IH]; [done|]. by rewrite <- IH at 2. Qed.

Lemma app_assoc_s (a b c : string) : (a +:+ b) +:+ c = a +:+ b +:+ c.
Proof. induction a as [|x a IH]; [done|]. cbn. unfold String.app in *. cbn. by rewrite IH. Qed.

Lemma app_cons (c : ascii) (a b : string) :
  String c a +:+ b = String c (a +:+ b).
Proof. reflexivity. Qed.

Lemma app_nil_l (s : string) : "" +:+ s = s.
Proof. reflexivity. Qed.

Lemma split_Some p d n :
  Path.split p = Some (d, n) → p = Path.join d n ∧ Path.has_sep n = false.
Proof.
  revert d n. induction p as [|c p IH]; intros d n H; [done|].
  cbn in H. destruct (Path.split p) as [[d' n']|] eqn:E.
  - injection H as <- <-. destruct (IH _ _ eq_refl) as [-> Hn]. by split.
  - destruct (Ascii.eqb c Path.sep) eqn:Hc; [|done].
    injection H as <- <-. apply Ascii.eqb_eq in Hc as ->. split; [done|].
    clear IH. induction p as [|c p IH]; [done|].
    cbn in E. destruct (Path.split p) as [[??]|]; [done|].
    cbn. destruct (Ascii.eqb c Path.sep); [done|]. by apply IH.
Qed.

Lemma split_no_sep n : Path.has_sep n = false → Path.split n = None.
Proof.
  induction n as [|c n IH]; [done|]. cbn.
  destruct (Ascii.eqb c Path.sep); [done|]. intros H. by rewrite IH.
Qed.

Lemma split_join d n :
  Path.has_sep n = false → Path.split (Path.join d n) = Some (d, n).
Proof.
  intros Hn. unfold Path.join. induction d as [|c d IH].
  - rewrite app_nil_l. change ("/" +:+ n) with (String Path.sep n).
    cbn. by rewrite split_no_sep.
  - rewrite app_cons. cbn. by rewrite IH.
Qed.

Lemma join_inj d n1 n2 : Path.join d n1 = Path.join d n2 → n1 = n2.
Proof.
  unfold Path.join. intros H. apply (inj (String.app d)) in H.
  by apply (inj (String.app "/")) in H.
Qed.

Lemma join_truthy d n : Js.truthy (Path.join d n) = true.
Proof. unfold Path.join. by destruct d. Qed.

Lemma entry_of_Some dir p n :
  entry_of dir p = Some n → p = Path.join dir n ∧ Path.has_sep n = false ∧ n ≠ "".
Proof.
  unfold entry_of. destruct (Path.split p) as [[d m]|] eqn:E; [|done].
  case_decide as Hd; [|done]. destruct Hd as [-> Hm]. intros [= <-].
  by destruct (split_Some _ _ _ E).
Qed.

Lemma elem_of_readdir (disk : gmap string Stats) dir n :
  n ∈ readdir disk dir ↔
  is_Some (disk !! Path.join dir n) ∧ Path.has_sep n = false ∧ n ≠ "".
Proof.
  unfold readdir. rewrite list_elem_of_omap. split.
  - intros (p & Hp & He). apply entry_of_Some in He as (-> & ? & ?).
    apply list_elem_of_fmap in Hp as ([p s] & -> & Hp).
    apply elem_of_map_to_list in Hp. cbn. eauto.
  - intros ([s Hs] & Hn & Hne). exists (Path.join dir n). split.
    + apply list_elem_of_fmap. exists (Path.join dir n, s).
      split; [done|]. by apply elem_of_map_to_list.
    + unfold entry_of. rewrite split_join by done. by rewrite decide_True.
Qed.

(** ** File lifecycle manager *)

Lemma scheduleDeletion_unfold p ttl st :
  scheduleDeletion p ttl st =
  if schedulable p st
  then mkLifecycle (fs st) (<[p := nextTimer st]> (deletionTimers st))
                   (timers st ++ [mkTimer (nextTimer st) p ttl])
                   (unlinking st) (S (nextTimer st))
  else st.
Proof.
  unfold scheduleDeletion, schedulable, scheduled.
  destruct (Js.truthy p); [|done]. cbn.
  destruct (bool_decide (is_Some (deletionTimers st !! p))); [done|]. cbn.
  by destruct (existsSync (fs st) p).
Qed.

Lemma scheduleDeletion_fs p ttl st : fs (scheduleDeletion p ttl st) = fs st.
Proof. rewrite scheduleDeletion_unfold. by destruct (schedulable p st). Qed.

Lemma scheduleDeletion_keeps p ttl st q :
  scheduled q st → scheduled q (scheduleDeletion p ttl st).
Proof.
  rewrite scheduleDeletion_unfold. destruct (schedulable p st); [|done].
  unfold scheduled. cbn. intros Hq. rewrite lookup_insert.
  by case_decide.
Qed.

Lemma scheduleDeletion_schedules p ttl st :
  Js.truthy p = true → is_Some (fs st !! p) →
  scheduled p (scheduleDeletion p ttl st).
Proof.
  intros Hp Hex. rewrite scheduleDeletion_unfold. unfold schedulable.
  rewrite Hp. unfold existsSync. rewrite (bool_decide_eq_true_2 _ Hex).
  destruct (bool_decide (scheduled p st)) eqn:Hs; cbn.
  - by apply bool_decide_eq_true_1 in Hs.
  - unfold scheduled. cbn. rewrite lookup_insert_eq. eauto.
Qed.

Lemma scheduleDeletion_scheduled_inv p ttl st q :
  scheduled q (scheduleDeletion p ttl st) →
  scheduled q st ∨ (q = p ∧ is_Some (fs st !! p)).
Proof.
  rewrite scheduleDeletion_unfold.
  destruct (schedulable p st) eqn:Hs; [|by left].
  unfold scheduled. cbn. rewrite lookup_insert. case_decide as Hq.
  - subst q. intros _. right. split; [done|].
    unfold schedulable in Hs. apply andb_true_iff in Hs as [_ Hs].
    by apply bool_decide_eq_true_1 in Hs.
  - by left.
Qed.

(** A batch of calls, as in [inputPaths.forEach(p => scheduleDeletion(p))]. *)
Lemma foldl_schedule_fs ttl ps st :
  fs (foldl (λ l p, scheduleDeletion p ttl l) st ps) = fs st.
Proof.
  revert st. induction ps as [|p ps IH]; intros st; [done|].
  cbn. by rewrite IH, scheduleDeletion_fs.
Qed.

Lemma foldl_schedule_keeps ttl ps st q :
  scheduled q st → scheduled q (foldl (λ l p, scheduleDeletion p ttl l) st ps).
Proof.
  revert st. induction ps as [|p ps IH]; intros st Hq; [done|].
  cbn. by apply IH, scheduleDeletion_keeps.
Qed.

Lemma foldl_schedule_schedules ttl ps st p :
  p ∈ ps → Js.truthy p = true → is_Some (fs st !! p) →
  scheduled p (foldl (λ l p, scheduleDeletion p ttl l) st ps).
Proof.
  revert st. induction ps as [|q ps IH]; intros st Hin Hp Hex.
  - by apply elem_of_nil in Hin.
  - cbn. apply elem_of_cons in Hin as [<-|Hin].
    + by apply foldl_schedule_keeps, scheduleDeletion_schedules.
    + apply IH; [done..|]. by rewrite scheduleDeletion_fs.
Qed.

Lemma filter_length_delete {A} (P : A → Prop) `{!∀ x, Decision (P x)}
    (l : list A) i x :
  l !! i = Some x →
  length (filter P l) =
  (length (filter P (delete i l)) + if decide (P x) then 1 else 0)%nat.
Proof.
  intros Hi. rewrite <- (take_drop_middle l i x Hi) at 1.
  rewrite delete_take_drop, !filter_app, filter_cons, !length_app.
  case_decide; cbn; lia.
Qed.

Lemma filter_length_remove_first p q l :
  p ∈ l →
  length (filter (λ x, x = q) l) =
  (length (filter (λ x, x = q) (remove_first p l))
   + if decide (p = q) then 1 else 0)%nat.
Proof.
  induction l as [|x l IH]; intros Hin.
  - by apply elem_of_nil in Hin.
  - rewrite filter_cons. change (remove_first p (x :: l)) with
      (if decide (x = p) then l else x :: remove_first p l).
    destruct (decide (x = p)) as [->|Hne].
    + repeat case_decide; cbn; lia.
    + apply elem_of_cons in Hin as [->|Hin]; [done|].
      rewrite filter_cons. specialize (IH Hin).
      repeat case_decide; cbn; try lia; congruence.
Qed.

Lemma sweep_entry_rest ttl dir now st n :
  let st' := sweep_entry ttl dir now st n in
  deletionTimers st' = deletionTimers st ∧ timers st' = timers st ∧
  unlinking st' = unlinking st ∧ nextTimer st' = nextTimer st.
Proof.
  unfold sweep_entry. cbn.
  destruct (fs st !! Path.join dir n) as [s|]; [|done].
  destruct (negb (isFile s)); [done|].
  destruct (Z.ltb _ _); [|done].
  by destruct (negb _).
Qed.

Lemma scan_rest ttl dir now st :
  let st' := scanAndCleanup ttl dir now st in
  deletionTimers st' = deletionTimers st ∧ timers st' = timers st ∧
  unlinking st' = unlinking st ∧ nextTimer st' = nextTimer st.
Proof.
  unfold scanAndCleanup. generalize (readdir (fs st) dir) as l.
  intros l. revert st. induction l as [|n l IH]; intros st; [done|].
  cbn. destruct (IH (sweep_entry ttl dir now st n)) as (-> & -> & -> & ->).
  apply sweep_entry_rest.
Qed.

Lemma timers_match_map_step st st' :
  lifecycle_step st st' → timers_match_map st → timers_match_map st'.
Proof.
  intros Hstep Inv. destruct Hstep as [p ttl st|id st|p st Hin|ttl dir now st|p s st].
  - rewrite scheduleDeletion_unfold.
    destruct (schedulable p st) eqn:Hs; [|done].
    assert (¬ scheduled p st) as Hns.
    { unfold schedulable in Hs. apply andb_true_iff in Hs as [Hs _].
      apply andb_true_iff in Hs as [_ Hs]. apply negb_true_iff in Hs.
      by apply bool_decide_eq_false_1 in Hs. }
    intros q. specialize (Inv q).
    unfold outstanding, armed, in_flight, scheduled in *. cbn.
    rewrite filter_app, length_app, filter_cons, filter_nil. cbn.
    rewrite lookup_insert.
    destruct (decide (p = q)) as [->|Hne].
    + rewrite decide_False in Inv by done.
      rewrite decide_True by eauto. cbn. lia.
    + cbn. repeat case_decide; lia.
  - unfold timer_fire.
    destruct (list_find _ (timers st)) as [[i t]|] eqn:Hf; [|done].
    apply list_find_Some in Hf as (Hi & _ & _).
    intros q. specialize (Inv q).
    unfold outstanding, armed, in_flight, scheduled in *. cbn.
    rewrite (filter_length_delete (λ t, timerPath t = q) _ _ _ Hi) in Inv.
    rewrite filter_app, length_app, filter_cons, filter_nil.
    repeat case_decide; cbn in *; lia.
  - intros q. pose proof (Inv q) as Hq.
    unfold outstanding, armed, in_flight, scheduled in *. cbn.
    rewrite (filter_length_remove_first p q _ Hin) in Hq.
    rewrite lookup_delete.
    destruct (decide (p = q)) as [->|Hne].
    + rewrite decide_False by (by intros [? ?]).
      case_decide; lia.
    + repeat case_decide; lia.
  - intros q. specialize (Inv q).
    destruct (scan_rest ttl dir now st) as (Hd & Ht & Hu & _).
    unfold outstanding, armed, in_flight, scheduled in *.
    by rewrite Hd, Ht, Hu.
  - done.
Qed.

Lemma reachable_timers_match_map disk st :
  reachable disk st → timers_match_map st.
Proof.
  induction 1 as [|st st' _ IH Hstep].
  - intros q. unfold outstanding, armed, in_flight, scheduled. cbn.
    rewrite lookup_empty. by rewrite decide_False by (by intros [? ?]).
  - by eapply timers_match_map_step.
Qed.

(** C5.  In every state the server can reach, a call of [scheduleDeletion]
    leaves every path with at most one outstanding scheduled deletion (armed
    timer or unlink in flight); calling it again for the same path changes
    nothing; it changes nothing when the path is already scheduled; and it
    changes nothing when no file exists at the path, so such a path is never
    added to [deletionTimers]: the only path the call can add is its
    argument, and only when the file exists. *)
Theorem scheduleDeletion_single_timer disk st p ttl ttl' :
  reachable disk st →
  let st1 := scheduleDeletion p ttl st in
  (∀ q, (outstanding q st1 ≤ 1)%nat) ∧
  scheduleDeletion p ttl' st1 = st1 ∧
  (scheduled p st → st1 = st) ∧
  (fs st !! p = None → st1 = st) ∧
  (∀ q, scheduled q st1 → scheduled q st ∨ (q = p ∧ is_Some (fs st !! p))).
Proof.
  intros Hr st1.
  assert (timers_match_map st1) as Inv1.
  { eapply reachable_timers_match_map, reach_step; [exact Hr|constructor]. }
  split; [|split; [|split; [|split]]].
  - intros q. rewrite (Inv1 q). case_decide; lia.
  - subst st1. rewrite (scheduleDeletion_unfold p ttl' _).
    destruct (schedulable p (scheduleDeletion p ttl st)) eqn:Hs; [|done].
    exfalso. unfold schedulable in Hs.
    apply andb_true_iff in Hs as [Hs Hex].
    apply andb_true_iff in Hs as [Hp Hs]. apply negb_true_iff in Hs.
    apply bool_decide_eq_false_1 in Hs. apply Hs.
    apply scheduleDeletion_schedules; [done|].
    apply bool_decide_eq_true_1 in Hex. by rewrite scheduleDeletion_fs in Hex.
  - intros Hs. subst st1. rewrite scheduleDeletion_unfold. unfold schedulable.
    rewrite (bool_decide_eq_true_2 _ Hs). by rewrite andb_false_r.
  - intros Hnone. subst st1. rewrite scheduleDeletion_unfold.
    unfold schedulable, existsSync. rewrite Hnone.
    assert (bool_decide (is_Some (@None Stats)) = false) as ->
      by (apply bool_decide_eq_false_2; by intros [? ?]).
    by rewrite andb_false_r.
  - intros q. apply scheduleDeletion_scheduled_inv.
Qed.

Lemma scheduleDeletion_single_timer_witness :
  let disk : gmap string Stats :=
    {[ "/srv/app/uploads/a.pdf" := mkStats true 0 0 10 ]} in
  let st1 :=
    scheduleDeletion "/srv/app/uploads/a.pdf" 300000 (lifecycle_init disk) in
  (∀ q, (outstanding q st1 ≤ 1)%nat) ∧
  scheduleDeletion "/srv/app/uploads/a.pdf" 1 st1 = st1.
Proof.
  intros disk st1.
  destruct (scheduleDeletion_single_timer disk (lifecycle_init disk)
              "/srv/app/uploads/a.pdf" 300000 1 (reach_init disk))
    as (H1 & H2 & _).
  exact (conj H1 H2).
Defined.

(** *** The periodic scan *)

Lemma sweep_entry_lookup ttl dir now st n p :
  fs (sweep_entry ttl dir now st n) !! p =
  match fs st !! p with
  | Some s =>
      if decide (p = Path.join dir n)
      then if purged ttl now (deletionTimers st) p s then None else Some s
      else Some s
  | None => None
  end.
Proof.
  unfold sweep_entry, purged, age. cbn.
  destruct (decide (p = Path.join dir n)) as [->|Hne].
  - destruct (fs st !! Path.join dir n) as [s|] eqn:E; [|by rewrite E].
    destruct (isFile s); cbn; [|by rewrite E].
    destruct (Z.ltb _ _); cbn; [|by rewrite E].
    destruct (bool_decide _); cbn; [by rewrite E|].
    by rewrite lookup_delete_eq.
  - destruct (fs st !! Path.join dir n) as [s|] eqn:E;
      [|by destruct (fs st !! p)].
    destruct (isFile s); cbn; [|by destruct (fs st !! p)].
    destruct (Z.ltb _ _); cbn; [|by destruct (fs st !! p)].
    destruct (bool_decide _); cbn; [by destruct (fs st !! p)|].
    rewrite lookup_delete_ne by done. by destruct (fs st !! p).
Qed.

Lemma foldl_sweep_lookup ttl dir now l st p :
  fs (foldl (sweep_entry ttl dir now) st l) !! p =
  match fs st !! p with
  | Some s =>
      if decide (p ∈ Path.join dir <$> l)
      then if purged ttl now (deletionTimers st) p s then None else Some s
      else Some s
  | None => None
  end.
Proof.
  revert st. induction l as [|n l IH]; intros st.
  - cbn. destruct (fs st !! p); [|done].
    by rewrite decide_False by apply not_elem_of_nil.
  - cbn [foldl]. rewrite IH, sweep_entry_lookup.
    destruct (sweep_entry_rest ttl dir now st n) as (-> & _).
    rewrite fmap_cons.
    destruct (fs st !! p) as [s|]; [|done].
    destruct (decide (p = Path.join dir n)) as [->|Hne].
    + rewrite (decide_True (P := _ ∈ _ :: _)) by (apply elem_of_cons; by left).
      destruct (purged _ _ _ _ s) eqn:E; [done|]. rewrite E. by case_decide.
    + destruct (decide (p ∈ Path.join dir <$> l)) as [Hin|Hnin].
      * rewrite decide_True; [done|]. apply elem_of_cons; by right.
      * rewrite decide_False; [done|]. intros [?|?]%elem_of_cons; done.
Qed.

Lemma scan_lookup ttl dir now st p :
  fs (scanAndCleanup ttl dir now st) !! p =
  match fs st !! p with
  | Some s =>
      if decide (p ∈ Path.join dir <$> readdir (fs st) dir)
      then if purged ttl now (deletionTimers st) p s then None else Some s
      else Some s
  | None => None
  end.
Proof. apply foldl_sweep_lookup. Qed.

Lemma join_dir_inj d1 n1 d2 n2 :
  Path.has_sep n1 = false → Path.has_sep n2 = false →
  Path.join d1 n1 = Path.join d2 n2 → d1 = d2 ∧ n1 = n2.
Proof.
  intros H1 H2 Heq. pose proof (split_join d1 n1 H1) as E1.
  rewrite Heq, (split_join d2 n2 H2) in E1. by injection E1 as -> ->.
Qed.

Lemma listed_other_dir (disk : gmap string Stats) d1 d2 n :
  d1 ≠ d2 → Path.has_sep n = false →
  Path.join d1 n ∉ Path.join d2 <$> readdir disk d2.
Proof.
  intros Hne Hn (m & Heq & Hm)%list_elem_of_fmap.
  apply elem_of_readdir in Hm as (_ & Hm & _).
  by destruct (join_dir_inj _ _ _ _ Hn Hm Heq).
Qed.

Lemma purged_spec ttl now dt p s :
  purged ttl now dt p s = true ↔
  isFile s = true ∧ ttl < age now s ∧ ¬ is_Some (dt !! p).
Proof.
  unfold purged. rewrite !andb_true_iff, negb_true_iff, Z.ltb_lt.
  rewrite bool_decide_eq_false. tauto.
Qed.

Lemma upload_outputs_differ (__dirname : string) :
  uploadDir __dirname ≠ outputsDir __dirname.
Proof. intros H. by apply join_inj in H. Qed.

(** C6, as the code has it.  One run of the periodic sweep over the two
    storage areas removes an entry of either directory if and only if it is
    a regular file, the time since the later of its modification and
    status-change times exceeds the TTL, and its path is not a key of the
    scheduling map.  Every other entry (younger, already scheduled, or not a
    regular file) is left on disk with its stats unchanged, and the sweep
    does not touch the scheduling map. *)
Theorem sweep_tick_purges_iff ttl (__dirname : string) now_uploads now_outputs
    st dir now name stats :
  (dir = uploadDir __dirname ∧ now = now_uploads) ∨
  (dir = outputsDir __dirname ∧ now = now_outputs) →
  name ∈ readdir (fs st) dir →
  fs st !! Path.join dir name = Some stats →
  let p := Path.join dir name in
  let st' := sweep_tick ttl (uploadDir __dirname) (outputsDir __dirname)
               now_uploads now_outputs st in
  (fs st' !! p = None ↔
     isFile stats = true ∧
     ttl < now - Z.max (mtimeMs stats) (ctimeMs stats) ∧
     ¬ scheduled p st) ∧
  (fs st' !! p = None ∨ fs st' !! p = Some stats) ∧
  deletionTimers st' = deletionTimers st.
Proof.
  intros Hdir Hin Hst p st'. subst p st'. unfold sweep_tick.
  set (st1 := scanAndCleanup ttl (uploadDir __dirname) now_uploads st).
  pose proof (upload_outputs_differ __dirname) as Hne.
  destruct (scan_rest ttl (uploadDir __dirname) now_uploads st) as (Hd1 & _).
  destruct (scan_rest ttl (outputsDir __dirname) now_outputs st1) as (Hd2 & _).
  fold st1 in Hd1.
  pose proof (proj1 (elem_of_readdir _ _ _) Hin) as (_ & Hsep & Hnm).
  assert (fs (scanAndCleanup ttl (outputsDir __dirname) now_outputs st1)
            !! Path.join dir name
          = if purged ttl now (deletionTimers st) (Path.join dir name) stats
            then None else Some stats) as Hlook.
  { rewrite scan_lookup. destruct Hdir as [[-> ->]|[-> ->]].
    - (* an entry of the upload area: decided by the first scan *)
      assert (fs st1 !! Path.join (uploadDir __dirname) name
              = if purged ttl now_uploads (deletionTimers st)
                     (Path.join (uploadDir __dirname) name) stats
                then None else Some stats) as ->.
      { unfold st1. rewrite scan_lookup, Hst.
        case_decide as Hc; [done|]. destruct Hc. by apply list_elem_of_fmap_2. }
      destruct (purged _ _ _ _ stats); [done|].
      case_decide as Hc; [|done].
      by apply listed_other_dir in Hc.
    - (* an entry of the output area: the first scan leaves it alone *)
      assert (fs st1 !! Path.join (outputsDir __dirname) name = Some stats)
        as Hst1.
      { unfold st1. rewrite scan_lookup, Hst.
        case_decide as Hc; [|done].
        apply listed_other_dir in Hc; [done|by apply not_eq_sym|done]. }
      rewrite Hst1, Hd1. case_decide as Hc; [done|]. destruct Hc.
      apply list_elem_of_fmap_2, elem_of_readdir. rewrite Hst1. eauto. }
  rewrite Hlook, Hd2, Hd1. split; [|split; [|done]].
  - destruct (purged ttl now (deletionTimers st) _ stats) eqn:E.
    + apply purged_spec in E. by split.
    + split; [done|]. intros HP. apply purged_spec in HP. congruence.
  - destruct (purged _ _ _ _ _); eauto.
Qed.

Lemma readdir_singleton dir n s :
  Path.has_sep n = false → n ≠ "" →
  n ∈ readdir {[ Path.join dir n := s ]} dir.
Proof.
  intros Hn Hne. apply elem_of_readdir. rewrite lookup_singleton_eq. eauto.
Qed.

Lemma scan_keeps ttl dir now st p s :
  fs st !! p = Some s → purged ttl now (deletionTimers st) p s = false →
  fs (scanAndCleanup ttl dir now st) !! p = Some s.
Proof. intros Hs Hp. rewrite scan_lookup, Hs, Hp. by case_decide. Qed.

Lemma not_scheduled_init disk p : ¬ scheduled p (lifecycle_init disk).
Proof. unfold scheduled. cbn. rewrite lookup_empty. by intros [? ?]. Qed.

Lemma sweep_tick_purges_iff_witness :
  let stats := mkStats true 0 0 10 in
  let st := lifecycle_init {[ "/srv/app/uploads/a.pdf" := stats ]} in
  fs (sweep_tick 300000 "/srv/app/uploads" "/srv/app/outputs"
        1000000 1000001 st) !! "/srv/app/uploads/a.pdf" = None.
Proof.
  intros stats st.
  apply (sweep_tick_purges_iff 300000 "/srv/app" 1000000 1000001 st
           "/srv/app/uploads" 1000000 "a.pdf" stats).
  - left. split; reflexivity.
  - apply (readdir_singleton "/srv/app/uploads" "a.pdf" stats); done.
  - apply lookup_singleton_eq.
  - split; [reflexivity|]. split; [reflexivity|].
    apply not_scheduled_init.
Defined.

(** C6, as written, fails: a regular file whose modification time is older
    than the TTL and whose path is not scheduled survives the sweep when its
    status-change time is recent. *)
Lemma sweep_keeps_old_mtime_recent_ctime :
  let stats := mkStats true 0 900000 10 in
  let st := lifecycle_init {[ "/srv/app/uploads/a.pdf" := stats ]} in
  let st' := sweep_tick 300000 "/srv/app/uploads" "/srv/app/outputs"
               1000000 1000000 st in
  "a.pdf" ∈ readdir (fs st) "/srv/app/uploads" ∧
  300000 < 1000000 - mtimeMs stats ∧
  ¬ scheduled "/srv/app/uploads/a.pdf" st ∧
  fs st' !! "/srv/app/uploads/a.pdf" = Some stats.
Proof.
  intros stats st st'. split; [|split; [|split]].
  - apply (readdir_singleton "/srv/app/uploads" "a.pdf" stats); done.
  - reflexivity.
  - apply not_scheduled_init.
  - subst st'. unfold sweep_tick.
    apply scan_keeps.
    + apply scan_keeps; [apply lookup_singleton_eq|reflexivity].
    + destruct (scan_rest 300000 "/srv/app/uploads" 1000000 st) as (-> & _).
      reflexivity.
Qed.

(** ** The duration token *)

Section DurationFacts.
Import Duration.

Lemma literal_spec lit s r : literal lit s = Some r ↔ s = lit +:+ r.
Proof.
  revert s. induction lit as [|a lit IH]; intros s.
  - rewrite app_nil_l. cbn. split; congruence.
  - rewrite app_cons. destruct s as [|b s]; cbn; [split; congruence|].
    destruct (Ascii.eqb a b) eqn:E.
    + apply Ascii.eqb_eq in E as ->. rewrite IH. split; congruence.
    + apply Ascii.eqb_neq in E. split; congruence.
Qed.

Lemma class_plus_s_spec s d :
  class_plus_s s = Some d ↔
  d ≠ "" ∧ all_class d = true ∧ ∃ post, s = d +:+ "s" +:+ post.
Proof.
  revert d. induction s as [|c s IH]; intros d.
  - cbn. split; [done|]. intros (Hd & _ & post & Hs). by destruct d.
  - cbn [class_plus_s]. destruct (in_class c) eqn:Hc.
    + destruct (class_plus_s s) as [d'|] eqn:E.
      * destruct (proj1 (IH d') eq_refl) as (Hd' & Hall & post & Es).
        split.
        -- intros [= <-]. split; [done|]. split; [by cbn; rewrite Hc|].
           exists post. by rewrite app_cons, Es.
        -- intros (Hd & Hcl & post' & Hs). destruct d as [|x d]; [done|].
           rewrite app_cons in Hs. injection Hs as <- Hs.
           cbn in Hcl. apply andb_true_iff in Hcl as [_ Hcl].
           destruct d as [|y d].
           ++ rewrite app_nil_l in Hs. rewrite Hs in Es.
              destruct d' as [|z d']; [done|].
              rewrite !app_cons in Es. injection Es as <- _.
              cbn in Hall. by rewrite andb_false_l in Hall.
           ++ f_equal. f_equal. symmetry.
              assert (Some d' = Some (String y d)) as [= ->]; [|done].
              apply IH. split; [done|]. split; [done|]. by exists post'.
      * destruct (literal "s" s) as [r|] eqn:El.
        -- apply literal_spec in El. split.
           ++ intros [= <-]. split; [done|]. split; [by cbn; rewrite Hc|].
              exists r. by rewrite El.
           ++ intros (Hd & Hcl & post & Hs). destruct d as [|x d]; [done|].
              rewrite app_cons in Hs. injection Hs as <- Hs.
              destruct d as [|y d]; [done|].
              cbn in Hcl. apply andb_true_iff in Hcl as [_ Hcl].
              assert (None = Some (String y d)); [|done].
              apply IH. split; [done|]. split; [done|]. by exists post.
        -- split; [done|]. intros (Hd & Hcl & post & Hs).
           destruct d as [|x d]; [done|].
           rewrite app_cons in Hs. injection Hs as <- Hs.
           cbn in Hcl. apply andb_true_iff in Hcl as [_ Hcl].
           destruct d as [|y d].
           ++ rewrite app_nil_l in Hs.
              assert (literal "s" s = Some post) by by apply literal_spec.
              congruence.
           ++ assert (None = Some (String y d)); [|done].
              apply IH. split; [done|]. split; [done|]. by exists post.
    + split; [done|]. intros (Hd & Hcl & post & Hs).
      destruct d as [|x d]; [done|].
      rewrite app_cons in Hs. injection Hs as <- Hs.
      cbn in Hcl. by rewrite Hc in Hcl.
Qed.

Lemma match_here_spec s d :
  match_here s = Some d ↔ ∃ post, token_at s "" d post.
Proof.
  unfold match_here, token_at. split.
  - destruct (literal "won in " s) as [rest|] eqn:El; [|done].
    apply literal_spec in El as ->. intros H.
    apply class_plus_s_spec in H as (Hd & Hcl & post & ->).
    exists post. by rewrite app_nil_l.
  - intros (post & Hs & Hd & Hcl). rewrite app_nil_l in Hs.
    assert (literal "won in " s = Some (d +:+ "s" +:+ post)) as ->
      by by apply literal_spec.
    apply class_plus_s_spec. eauto.
Qed.

Lemma token_at_cons c s pre d post :
  token_at (String c s) (String c pre) d post ↔ token_at s pre d post.
Proof.
  unfold token_at. rewrite app_cons. split.
  - intros ([= ->] & ? & ?). done.
  - intros (-> & ? & ?). done.
Qed.

Lemma token_at_not_here s pre d post :
  match_here s = None → token_at s pre d post →
  ∃ c s' pre', s = String c s' ∧ pre = String c pre' ∧ token_at s' pre' d post.
Proof.
  intros Hm Ht. destruct pre as [|c pre].
  - assert (match_here s = Some d) by (apply match_here_spec; eauto).
    congruence.
  - destruct s as [|c' s]; [by destruct Ht|].
    assert (c' = c) as -> by (destruct Ht as [Hs _]; by injection Hs).
    exists c, s, pre. split; [done|]. split; [done|].
    by apply (token_at_cons c).
Qed.

Lemma timeMatch_None s : timeMatch s = None ↔ ¬ has_token s.
Proof.
  induction s as [|c s IH]; cbn [timeMatch].
  - split; [|done]. intros _ (pre & d & post & Hs & _).
    by destruct pre.
  - destruct (match_here (String c s)) as [d|] eqn:E.
    + split; [done|]. intros H. destruct H.
      apply match_here_spec in E as (post & Ht). by exists "", d, post.
    + rewrite IH. split.
      * intros Hn (pre & d & post & Ht). apply Hn.
        apply (token_at_not_here _ _ _ _ E) in Ht
          as (c' & s' & pre' & [= <- <-] & -> & Ht).
        by exists pre', d, post.
      * intros Hn (pre & d & post & Ht). apply Hn.
        exists (String c pre), d, post. by apply token_at_cons.
Qed.

Lemma timeMatch_first s d : timeMatch s = Some d → first_token s d.
Proof.
  induction s as [|c s IH]; cbn [timeMatch].
  - by cbn.
  - destruct (match_here (String c s)) as [d'|] eqn:E.
    + intros [= <-]. apply match_here_spec in E as (post & Ht).
      exists "", post. split; [done|]. intros. cbn. lia.
    + intros H. destruct (IH H) as (pre & post & Ht & Hmin).
      exists (String c pre), post. split; [by apply token_at_cons|].
      intros pre' d' post' Ht'.
      apply (token_at_not_here _ _ _ _ E) in Ht'
        as (c' & s' & pre'' & [= <- <-] & -> & Ht').
      cbn. apply le_n_S. by eapply Hmin.
Qed.

Lemma app_inv_length (a b x y : string) :
  a +:+ x = b +:+ y → String.length a = String.length b → a = b ∧ x = y.
Proof.
  revert b. induction a as [|c a IH]; intros [|c' b]; cbn; try done.
  rewrite !app_cons. intros [= -> H] [= Hl].
  by destruct (IH _ H Hl) as [-> ->].
Qed.

Lemma first_token_unique s d1 d2 :
  first_token s d1 → first_token s d2 → d1 = d2.
Proof.
  intros (pre1 & post1 & Ht1 & Hmin1) (pre2 & post2 & Ht2 & Hmin2).
  pose proof (Hmin1 _ _ _ Ht2). pose proof (Hmin2 _ _ _ Ht1).
  destruct Ht1 as (Hs1 & Hd1 & Hc1), Ht2 as (Hs2 & Hd2 & Hc2).
  rewrite Hs1 in Hs2. apply app_inv_length in Hs2 as [_ Hs2]; [|lia].
  assert (match_here ("won in " +:+ d1 +:+ "s" +:+ post1) = Some d1) as E1.
  { apply match_here_spec. exists post1. unfold token_at. by rewrite app_nil_l. }
  assert (match_here ("won in " +:+ d1 +:+ "s" +:+ post1) = Some d2) as E2.
  { apply match_here_spec. exists post2. unfold token_at. by rewrite app_nil_l, Hs2. }
  congruence.
Qed.

Lemma timeMatch_spec s d : timeMatch s = Some d ↔ first_token s d.
Proof.
  split; [apply timeMatch_first|]. intros Hf.
  destruct (timeMatch s) as [d'|] eqn:E.
  - f_equal. eapply first_token_unique; [|done]. by apply timeMatch_first.
  - apply timeMatch_None in E. destruct E.
    destruct Hf as (pre & post & Ht & _). by exists pre, d, post.
Qed.

End DurationFacts.

(** ** The engine's output as the listeners accumulate it *)

Lemma foldl_stdout_text acc evs :
  foldl (λ acc ev, match ev with Stdout d => acc +:+ d | Stderr _ => acc end)
        acc evs = acc +:+ stdout_text evs.
Proof.
  unfold stdout_text. revert acc. induction evs as [|ev evs IH]; intros acc.
  - cbn. by rewrite app_empty_r.
  - cbn [foldl]. rewrite IH. rewrite (IH (match ev with Stdout d => _ | Stderr _ => _ end)).
    destruct ev; [|done]. by rewrite app_nil_l, app_assoc_s.
Qed.

Lemma foldl_stderr_text acc evs :
  foldl (λ acc ev, match ev with Stderr d => acc +:+ d | Stdout _ => acc end)
        acc evs = acc +:+ stderr_text evs.
Proof.
  unfold stderr_text. revert acc. induction evs as [|ev evs IH]; intros acc.
  - cbn. by rewrite app_empty_r.
  - cbn [foldl]. rewrite IH. rewrite (IH (match ev with Stderr d => _ | Stdout _ => _ end)).
    destruct ev; [done|]. by rewrite app_nil_l, app_assoc_s.
Qed.

Lemma worker_run_buffers socketId rs evs :
  let rs' := foldl (Worker.on_child_event socketId) rs evs in
  Worker.fullOutput rs' = Worker.fullOutput rs +:+ stdout_text evs ∧
  Worker.stderrOutput rs' = Worker.stderrOutput rs +:+ stderr_text evs.
Proof.
  cbn. rewrite <- foldl_stdout_text, <- foldl_stderr_text.
  revert rs. induction evs as [|ev evs IH]; intros rs; [done|].
  cbn [foldl]. destruct (IH (Worker.on_child_event socketId rs ev)) as [-> ->].
  destruct ev as [d|d]; cbn; [|done].
  unfold Worker.on_stdout. by destruct (Js.truthy _).
Qed.

Lemma server_run_stderr r evs :
  Server.stderrBuf (foldl Server.on_child_event r evs)
  = Server.stderrBuf r +:+ stderr_text evs.
Proof.
  rewrite <- foldl_stderr_text.
  revert r. induction evs as [|ev evs IH]; intros r; [done|].
  cbn [foldl]. rewrite IH. destruct ev as [d|d]; cbn; [|done].
  unfold Server.on_stdout. by destruct (Js.truthy _).
Qed.

(** ** The worker's processor *)

(** A run of the processor that got as far as spawning the engine. *)
Lemma processor_spawned uploadDir job now child e :
  Worker.processor uploadDir job now child = Some e →
  Worker.spawned e ≠ None →
  ∃ script args outputFilename,
    Worker.routing_table uploadDir (Worker.job_name job)
      (Worker.job_data job) now = Some (script, Some <$> args, outputFilename) ∧
    Js.truthy script = true ∧
    Worker.spawned e = Some (spawn_argv script args) ∧
    let sock := Worker.socketId (Worker.job_data job) in
    let rs := foldl (Worker.on_child_event sock) Worker.run_start
                (output child) in
    match Worker.on_close (exitCode child) rs with
    | Worker.Resolve d =>
        Worker.progress e = Worker.updates rs ∧
        Worker.outcome e =
          Worker.Completed (Worker.mkReturnValue sock
            (mkResponseData "success" ("/download/" +:+ outputFilename)
               None (Some d) (Some outputFilename)))
    | Worker.Reject msg =>
        Worker.progress e =
          (Worker.updates rs ++ [Worker.mkProgress ("Error: " +:+ msg) sock])%list ∧
        Worker.outcome e = Worker.Failed msg
    end.
Proof.
  unfold Worker.processor. intros Hp Hs.
  destruct (Worker.routing_table _ _ _ _) as [[[script args] out]|]; [|done].
  cbn in Hp. destruct (Js.truthy script) eqn:Ht; cbn in Hp.
  - destruct (mapM id args) as [args'|] eqn:Hm; [|done]. cbn in Hp.
    apply mapM_Some in Hm.
    assert (args = Some <$> args') as ->.
    { clear -Hm. induction Hm as [|x y l k Hxy _ IH]; [done|].
      cbn in *. by rewrite Hxy, IH. }
    exists script, args', out. split; [done|]. split; [done|].
    unfold Worker.runPython in Hp. cbn.
    destruct (Worker.on_close _ _); injection Hp as <-; by cbn.
  - injection Hp as <-. by cbn in Hs.
Qed.

Lemma worker_on_close_zero rs :
  Worker.on_close (Some 0) rs =
  Worker.Resolve (default "0.00" (Duration.timeMatch (Worker.fullOutput rs))).
Proof. unfold Worker.on_close. cbn. by destruct (Duration.timeMatch _). Qed.

Lemma worker_on_close_nonzero code rs :
  is_zero code = false →
  Worker.on_close code rs =
  Worker.Reject ("Exit code " +:+ Js.code_str code +:+ ": "
                 +:+ Js.slice0 200 (Worker.stderrOutput rs)).
Proof. unfold Worker.on_close. by intros ->. Qed.

(** C4, as the code has it.  When the engine of a queued job exits with code
    0, the worker scans the accumulated standard output for
    [won in <digits and dots>s] and the job completes (no error is raised)
    with a result whose [duration] field is always present: it is the value
    of the first token when the output holds one, and the default ["0.00"]
    when it holds none.  The direct executor of [server.js] does not scan the
    output: its result never has a [duration] field. *)
Theorem worker_duration_token_or_default uploadDir job now child e :
  Worker.processor uploadDir job now child = Some e →
  Worker.spawned e ≠ None →
  exitCode child = Some 0 →
  (∃ rv d,
     Worker.outcome e = Worker.Completed rv ∧
     duration (Worker.rv_result rv) = Some d ∧
     (∀ t, Duration.first_token (stdout_text (output child)) t → d = t) ∧
     (¬ Duration.has_token (stdout_text (output child)) → d = "0.00")) ∧
  (∀ dir o life1, duration (Server.responseData dir o life1) = None).
Proof.
  intros Hp Hs Hc. split; [|done].
  destruct (processor_spawned _ _ _ _ _ Hp Hs)
    as (script & args & out & _ & _ & _ & He).
  cbn zeta in He. rewrite Hc, worker_on_close_zero in He.
  destruct He as [_ He].
  destruct (worker_run_buffers (Worker.socketId (Worker.job_data job))
              Worker.run_start (output child)) as [Hout _].
  cbn zeta in Hout. rewrite Hout in He. cbn [Worker.fullOutput Worker.run_start] in He.
  rewrite app_nil_l in He.
  eexists _, _. split; [exact He|]. split; [done|]. split.
  - intros t Ht. apply timeMatch_spec in Ht. by rewrite Ht.
  - intros Hn. apply timeMatch_None in Hn. by rewrite Hn.
Qed.

Lemma processor_timed_execution :
  Worker.processor Scenario.uploads Scenario.compress_job 1700000000500
    Scenario.timed_success = Some Scenario.timed_execution.
Proof. vm_compute. reflexivity. Qed.

Lemma worker_duration_token_or_default_witness :
  ∃ rv d,
    Worker.outcome Scenario.timed_execution = Worker.Completed rv ∧
    duration (Worker.rv_result rv) = Some d ∧
    (∀ t, Duration.first_token
            (stdout_text (output Scenario.timed_success)) t → d = t) ∧
    (¬ Duration.has_token (stdout_text (output Scenario.timed_success)) →
     d = "0.00").
Proof.
  apply (worker_duration_token_or_default Scenario.uploads
           Scenario.compress_job 1700000000500 Scenario.timed_success
           Scenario.timed_execution).
  - exact processor_timed_execution.
  - discriminate.
  - reflexivity.
Defined.

(** C4, as written, fails: with exit code 0 and no duration token in the
    output, the worker's result still has a [duration] field, holding the
    default ["0.00"]. *)
Lemma worker_duration_present_without_token :
  ¬ Duration.has_token (stdout_text (output Scenario.quiet_success)) ∧
  ∃ e rv,
    Worker.processor Scenario.uploads Scenario.compress_job 1700000000500
      Scenario.quiet_success = Some e ∧
    Worker.outcome e = Worker.Completed rv ∧
    duration (Worker.rv_result rv) = Some "0.00" ∧
    duration (Worker.rv_result rv) ≠ None.
Proof.
  split.
  - by apply timeMatch_None.
  - eexists _, _. split; [vm_compute; reflexivity|]. by cbn.
Qed.

(** ** The direct executor *)

Lemma server_fold_keeps r evs :
  let r' := foldl Server.on_child_event r evs in
  Server.options r' = Server.options r ∧
  Server.argv r' = Server.argv r ∧
  Server.res r' = Server.res r ∧
  Server.life (Server.state r') = Server.life (Server.state r).
Proof.
  cbn. revert r. induction evs as [|ev evs IH]; intros r; [done|].
  cbn [foldl]. destruct (IH (Server.on_child_event r ev)) as (-> & -> & -> & ->).
  destruct ev as [d|d]; cbn; [|done].
  unfold Server.on_stdout. by destruct (Js.truthy _).
Qed.

Lemma server_on_close_success uploadDir ttl r :
  let o := Server.options r in
  let life1 := foldl (λ l p, scheduleDeletion p ttl l)
                 (Server.life (Server.state r)) (Server.inputPaths o) in
  let rd := Server.responseData uploadDir o life1 in
  let r' := Server.on_close uploadDir ttl (Some 0) r in
  Server.emitted (Server.state r') =
    Server.emit_to (Server.socketId o) "conversion-finished" (PResult rd)
      (Server.emitted (Server.state r)) ∧
  Server.res r' =
    (if headersSent (Server.res r) then Server.res r
     else res_json (JResult rd) (Server.res r)) ∧
  Server.life (Server.state r') =
    scheduleDeletion (Server.outputPath uploadDir o) ttl life1.
Proof. cbn. unfold Server.on_close. cbn. by destruct (headersSent _). Qed.

Lemma server_on_close_failure uploadDir ttl r code :
  is_zero code = false →
  let o := Server.options r in
  let life1 := foldl (λ l p, scheduleDeletion p ttl l)
                 (Server.life (Server.state r)) (Server.inputPaths o) in
  let details := Server.details (Server.stderrBuf r) in
  let r' := Server.on_close uploadDir ttl code r in
  Server.emitted (Server.state r') =
    Server.emit_to (Server.socketId o) "conversion-error"
      (PText ("Engine failed to process. Details: "
              +:+ Js.slice0 1000 details))
      (Server.emitted (Server.state r)) ∧
  Server.res r' =
    (if headersSent (Server.res r) then Server.res r
     else res_json (JFailed "Processing failed" code (Js.slice0 2000 details))
            (res_status 500 (Server.res r))) ∧
  Server.life (Server.state r') =
    (if existsSync (fs life1) (Server.outputPath uploadDir o)
     then scheduleDeletion (Server.outputPath uploadDir o) ttl life1
     else life1).
Proof.
  intros Hc. cbn. unfold Server.on_close. rewrite Hc. cbn.
  by destruct (headersSent _).
Qed.

Lemma slice0_details n buf :
  Js.includes (Js.slice0 n (Server.details buf)) (Js.slice0 n buf).
Proof.
  unfold Server.details. destruct buf as [|c buf].
  - exists "", (Js.slice0 n "No stderr output captured.").
    by destruct n.
  - exists "", "". cbn [Js.truthy]. by rewrite app_nil_l, app_empty_r.
Qed.

Lemma includes_app_l pre hay needle :
  Js.includes hay needle → Js.includes (pre +:+ hay) needle.
Proof.
  intros (a & b & ->). exists (pre +:+ a), b. by rewrite app_assoc_s.
Qed.

(** C1, as the code has it.  When the engine exits with code 0 the outcome
    is a success on both paths, whatever is on disk, and it is never turned
    into a failure.  In the direct executor, when no file exists at the
    output path, the ['conversion-finished'] event and the HTTP answer carry
    [status "success"] and [fileSize 0], and no ['conversion-error'] is
    emitted.  In the queue worker the job completes with [status "success"],
    no error progress message is published, and the result carries a
    [duration], the output file name ([file]) and the matching
    [downloadUrl], and no [fileSize] field at all. *)
Theorem zero_exit_reports_success uploadDir ttl r job now child e :
  fs (Server.life (Server.state r))
    !! Server.outputPath uploadDir (Server.options r) = None →
  Worker.processor uploadDir job now child = Some e →
  Worker.spawned e ≠ None →
  exitCode child = Some 0 →
  let o := Server.options r in
  let rd := mkResponseData "success" ("/download/" +:+ Server.outputFilename o)
              (Some 0) None None in
  let r' := Server.on_close uploadDir ttl (Some 0) r in
  Server.emitted (Server.state r') =
    Server.emit_to (Server.socketId o) "conversion-finished" (PResult rd)
      (Server.emitted (Server.state r)) ∧
  Server.res r' =
    (if headersSent (Server.res r) then Server.res r
     else res_json (JResult rd) (Server.res r)) ∧
  ∃ rv,
    Worker.outcome e = Worker.Completed rv ∧
    status (Worker.rv_result rv) = "success" ∧
    fileSize (Worker.rv_result rv) = None ∧
    Worker.progress e =
      Worker.updates (foldl (Worker.on_child_event
                               (Worker.socketId (Worker.job_data job)))
                        Worker.run_start (output child)) ∧
    ∃ d outputFilename,
      duration (Worker.rv_result rv) = Some d ∧
      file (Worker.rv_result rv) = Some outputFilename ∧
      downloadUrl (Worker.rv_result rv) = "/download/" +:+ outputFilename.
Proof.
  intros Hmiss Hp Hs Hc o rd r'.
  destruct (server_on_close_success uploadDir ttl r) as (He & Hr & _).
  cbn zeta in He, Hr.
  assert (Server.responseData uploadDir o
            (foldl (λ l p, scheduleDeletion p ttl l)
               (Server.life (Server.state r)) (Server.inputPaths o)) = rd)
    as Hrd.
  { unfold Server.responseData. rewrite foldl_schedule_fs.
    subst o. by rewrite Hmiss. }
  fold o in He, Hr. rewrite Hrd in He, Hr.
  split; [exact He|]. split; [exact Hr|].
  destruct (processor_spawned _ _ _ _ _ Hp Hs)
    as (script & args & out & _ & _ & _ & Hw).
  cbn zeta in Hw. rewrite Hc, worker_on_close_zero in Hw.
  destruct Hw as [Hprog Hout]. eexists. split; [exact Hout|].
  cbn. split; [done|]. split; [done|]. split; [done|].
  eexists _, _. done.
Qed.

Lemma zero_exit_reports_success_witness :
  let r := Server.executeTask res_fresh
             (Server.mkOptions "compressor.py" [] (Some "sock1")
                [path Scenario.a_pdf] "compressed_1700000000500.pdf")
             Scenario.server_state in
  Server.res (Server.on_close Scenario.uploads Scenario.ttl (Some 0) r) =
  res_json
    (JResult (mkResponseData "success"
                "/download/compressed_1700000000500.pdf" (Some 0) None None))
    res_fresh.
Proof.
  intros r.
  apply (zero_exit_reports_success Scenario.uploads Scenario.ttl r
           Scenario.compress_job 1700000000500 Scenario.timed_success
           Scenario.timed_execution).
  - vm_compute. reflexivity.
  - exact processor_timed_execution.
  - discriminate.
  - reflexivity.
Defined.

(** C1, as written, fails on the worker: its result for an engine that exits
    with code 0 has no [fileSize] field, so it does not report [fileSize 0].
    (The worker never looks at the disk: the artifact may be missing.) *)
Lemma worker_success_has_no_fileSize :
  ∃ e rv,
    Worker.processor Scenario.uploads Scenario.compress_job 1700000000500
      Scenario.quiet_success = Some e ∧
    Worker.outcome e = Worker.Completed rv ∧
    status (Worker.rv_result rv) = "success" ∧
    fileSize (Worker.rv_result rv) ≠ Some 0.
Proof.
  eexists _, _. split; [vm_compute; reflexivity|]. by cbn.
Qed.

(** C7.  When the engine exits with a non-zero code (or is ended by a
    signal), the outcome is a failure whose diagnostic is built from the
    captured standard error, cut to a fixed length, and the uploaded input
    is scheduled for deletion all the same.

    Direct executor: the client gets ['conversion-error'] with
    ["Engine failed to process. Details: "] followed by the first 1000
    characters of the captured stderr (a fixed text when nothing was
    captured), the HTTP answer is a 500 with the first 2000 characters, and
    every existing input path is a key of [deletionTimers] afterwards.

    Queue worker: the promise is rejected with ["Exit code <code>: "]
    followed by the first 200 characters of stderr; the job fails with that
    reason, after one last progress update ["Error: " + reason] tagged with
    the job's socket id.  The gateway had scheduled the upload when it
    enqueued the job. *)
Theorem nonzero_exit_reports_stderr uploadDir ttl res o st child p
    job now e req f (gst : Gateway.State) :
  is_zero (exitCode child) = false →
  p ∈ Server.inputPaths o → Js.truthy p = true →
  is_Some (fs (Server.life st) !! p) →
  Worker.processor uploadDir job now child = Some e →
  Worker.spawned e ≠ None →
  req_file req = Some f → Js.truthy (path f) = true →
  is_Some (fs (Gateway.life gst) !! path f) →
  let captured := stderr_text (output child) in
  (* server.js *)
  let r1 := foldl Server.on_child_event (Server.executeTask res o st)
              (output child) in
  let r' := Server.finish uploadDir ttl child (Server.executeTask res o st) in
  let detail := "Engine failed to process. Details: "
                +:+ Js.slice0 1000 (Server.details captured) in
  (Server.emitted (Server.state r') =
     Server.emit_to (Server.socketId o) "conversion-error" (PText detail)
       (Server.emitted (Server.state r1)) ∧
   Js.includes detail (Js.slice0 1000 captured) ∧
   Server.res r' =
     (if headersSent res then res
      else res_json (JFailed "Processing failed" (exitCode child)
                       (Js.slice0 2000 (Server.details captured)))
             (res_status 500 res)) ∧
   scheduled p (Server.life (Server.state r'))) ∧
  (* worker and gateway *)
  let reason := "Exit code " +:+ Js.code_str (exitCode child) +:+ ": "
                +:+ Js.slice0 200 captured in
  (Worker.outcome e = Worker.Failed reason ∧
   last (Worker.progress e) =
     Some (Worker.mkProgress ("Error: " +:+ reason)
             (Worker.socketId (Worker.job_data job))) ∧
   Js.includes reason (Js.slice0 200 captured) ∧
   scheduled (path f) (Gateway.life (Gateway.post_ocr_extract ttl req gst).2) ∧
   scheduled (path f) (Gateway.life (Gateway.post_convert ttl req gst).2) ∧
   scheduled (path f) (Gateway.life (Gateway.post_compress_pdf ttl req gst).2)).
Proof.
  intros Hc Hin Hp Hex Hproc Hsp Hf Hfp Hfex captured r1 r' detail.
  split.
  - subst r'. unfold Server.finish. fold r1.
    destruct (server_on_close_failure uploadDir ttl r1 _ Hc) as (He & Hr & Hl).
    cbn zeta in He, Hr, Hl.
    destruct (server_fold_keeps (Server.executeTask res o st) (output child))
      as (Ho & _ & Hres & Hlife).
    cbn zeta in Ho, Hres, Hlife. fold r1 in Ho, Hres, Hlife.
    assert (Server.stderrBuf r1 = captured) as Hbuf.
    { unfold r1. rewrite server_run_stderr. cbn. by rewrite app_nil_l. }
    rewrite Ho, Hbuf in He. rewrite Hres, Hbuf in Hr.
    rewrite Ho, Hlife in Hl. cbn in He, Hr, Hl.
    split; [exact He|]. split; [|split; [exact Hr|]].
    + apply includes_app_l, slice0_details.
    + rewrite Hl.
      assert (scheduled p (foldl (λ l q, scheduleDeletion q ttl l)
                             (Server.life st) (Server.inputPaths o))) as Hs
        by by apply foldl_schedule_schedules.
      destruct (existsSync _ _); [by apply scheduleDeletion_keeps|done].
  - intros reason.
    destruct (processor_spawned _ _ _ _ _ Hproc Hsp)
      as (script & args & out & _ & _ & _ & Hw).
    cbn zeta in Hw. rewrite (worker_on_close_nonzero _ _ Hc) in Hw.
    destruct (worker_run_buffers (Worker.socketId (Worker.job_data job))
                Worker.run_start (output child)) as [_ Herr].
    cbn zeta in Herr. rewrite Herr in Hw. cbn [Worker.stderrOutput Worker.run_start] in Hw.
    rewrite app_nil_l in Hw. fold captured in Hw. fold reason in Hw.
    destruct Hw as [Hprog Hout].
    split; [exact Hout|]. split; [by rewrite Hprog, last_snoc|].
    split.
    + unfold reason. rewrite <- !app_assoc_s.
      exists ((("Exit code " +:+ Js.code_str (exitCode child)) +:+ ": ")), "".
      by rewrite app_empty_r.
    + unfold Gateway.post_ocr_extract, Gateway.post_convert,
        Gateway.post_compress_pdf. rewrite Hf. cbn.
      repeat split; by apply scheduleDeletion_schedules.
Qed.

Lemma server_ocr_route :
  Server.post_ocr_extract Scenario.uploads Scenario.ocr_req 1700000000500
    Scenario.server_state
  = Server.Executing
      (Server.executeTask res_fresh Scenario.ocr_options Scenario.server_state).
Proof. vm_compute. reflexivity. Qed.

Lemma processor_ocr_failure :
  Worker.processor Scenario.uploads Scenario.ocr_job 1700000000500
    Scenario.ocr_failure = Some Scenario.ocr_failed_execution.
Proof. vm_compute. reflexivity. Qed.

Lemma scenario_disk_scan : is_Some (Scenario.disk !! path Scenario.scan_png).
Proof. eexists. vm_compute. reflexivity. Qed.

Lemma nonzero_exit_reports_stderr_witness :
  let r' := Server.finish Scenario.uploads Scenario.ttl Scenario.ocr_failure
              (Server.executeTask res_fresh Scenario.ocr_options
                 Scenario.server_state) in
  Server.emitted (Server.state r') =
    [mkEmit "sock1" "conversion-error"
       (PText "Engine failed to process. Details: tesseract not found")] ∧
  scheduled (path Scenario.scan_png) (Server.life (Server.state r')) ∧
  Worker.outcome Scenario.ocr_failed_execution =
    Worker.Failed "Exit code 1: tesseract not found".
Proof.
  intros r'.
  destruct (nonzero_exit_reports_stderr Scenario.uploads Scenario.ttl
              res_fresh Scenario.ocr_options Scenario.server_state
              Scenario.ocr_failure (path Scenario.scan_png)
              Scenario.ocr_job 1700000000500 Scenario.ocr_failed_execution
              Scenario.ocr_req Scenario.scan_png
              (Gateway.init Scenario.disk))
    as [(He & _ & _ & Hs) (Ho & _)].
  - reflexivity.
  - apply elem_of_cons. by left.
  - reflexivity.
  - exact scenario_disk_scan.
  - exact processor_ocr_failure.
  - discriminate.
  - reflexivity.
  - reflexivity.
  - exact scenario_disk_scan.
  - split; [exact He|]. split; [exact Hs|exact Ho].
Defined.

(** C9.  In the direct executor, when the engine exits with a non-zero code
    and a file exists at the resolved output path, that path is a key of
    [deletionTimers] once the ['close'] listener has run. *)
Theorem failed_output_is_scheduled uploadDir ttl r code :
  is_zero code = false →
  is_Some (fs (Server.life (Server.state r))
             !! Server.outputPath uploadDir (Server.options r)) →
  scheduled (Server.outputPath uploadDir (Server.options r))
            (Server.life (Server.state (Server.on_close uploadDir ttl code r))).
Proof.
  intros Hc Hex.
  destruct (server_on_close_failure uploadDir ttl r code Hc) as (_ & _ & ->).
  rewrite foldl_schedule_fs. unfold existsSync.
  rewrite (bool_decide_eq_true_2 _ Hex).
  apply scheduleDeletion_schedules; [apply join_truthy|].
  by rewrite foldl_schedule_fs.
Qed.

Lemma failed_output_is_scheduled_witness :
  let out := "/srv/app/uploads/ocr_1700000000500.txt" in
  let st := Server.mkState
              (lifecycle_init (<[out := mkStats true 0 0 0]> Scenario.disk))
              [] in
  scheduled out
    (Server.life (Server.state
       (Server.on_close Scenario.uploads Scenario.ttl (Some 1)
          (Server.executeTask res_fresh Scenario.ocr_options st)))).
Proof.
  intros out st.
  apply (failed_output_is_scheduled Scenario.uploads Scenario.ttl
           (Server.executeTask res_fresh Scenario.ocr_options st) (Some 1)).
  - reflexivity.
  - eexists. apply lookup_insert_eq.
Defined.

(** ** The compress-pdf pipeline *)

Lemma server_compress_route uploadDir req f now st :
  req_file req = Some f →
  let outputFilename := "compressed_" +:+ Js.num now +:+ ".pdf" in
  Server.post_compress_pdf uploadDir req now st =
  Server.Executing (Server.executeTask res_fresh
    (Server.mkOptions "compressor.py"
       [path_resolve (path f); Path.join uploadDir outputFilename;
        Js.or_default (body_grayscale (req_body req)) "false";
        "true";
        Js.or_default (body_dpi (req_body req)) "150"]
       (body_socketId (req_body req)) [path f] outputFilename) st).
Proof. intros Hf. unfold Server.post_compress_pdf. by rewrite Hf. Qed.

Lemma gateway_compress_route ttl req f (gst : Gateway.State) :
  req_file req = Some f →
  Gateway.post_compress_pdf ttl req gst =
  (Gateway.queued,
   Gateway.schedule (path f) ttl
     (Gateway.queue_add "compress-pdf" (compress_job_data req f) gst)).
Proof. intros Hf. unfold Gateway.post_compress_pdf. by rewrite Hf. Qed.

Lemma worker_compress_execution uploadDir jid inp sock g d now child :
  let outputFilename := "compressed_" +:+ Js.num now +:+ ".pdf" in
  let job := Worker.mkJob jid "compress-pdf"
               (Worker.mkJobData (Some inp) sock None None (Some g) (Some d)
                                 None None None None) in
  let argv := ["python"; "compressor.py"; inp;
               Path.join uploadDir outputFilename; g; "true"; d] in
  let rs := foldl (Worker.on_child_event sock) Worker.run_start
              (output child) in
  Worker.processor uploadDir job now child =
  Some match Worker.on_close (exitCode child) rs with
       | Worker.Resolve duration =>
           Worker.mkExecution (Some argv) (Worker.updates rs)
             (Worker.Completed (Worker.mkReturnValue sock
                (mkResponseData "success" ("/download/" +:+ outputFilename)
                   None (Some duration) (Some outputFilename))))
       | Worker.Reject msg =>
           Worker.mkExecution (Some argv)
             (Worker.updates rs ++ [Worker.mkProgress ("Error: " +:+ msg) sock])
             (Worker.Failed msg)
       end.
Proof.
  cbn zeta. unfold Worker.processor, Worker.runPython. cbn.
  by destruct (Worker.on_close _ _).
Qed.

Lemma forwarded_app a b :
  Gateway.forwarded (a ++ b) = (Gateway.forwarded a ++ Gateway.forwarded b)%list.
Proof. apply omap_app. Qed.

Lemma forwarded_forward e : Gateway.forwarded [Gateway.Forward e] = [e].
Proof. reflexivity. Qed.

Lemma bridge_all_snoc evs ev :
  Gateway.bridge_all (evs ++ [ev]) =
  (Gateway.bridge_all evs ++ Gateway.forwarded (Gateway.bridge ev))%list.
Proof.
  unfold Gateway.bridge_all. rewrite bind_app, forwarded_app.
  f_equal. cbn. by rewrite app_nil_r.
Qed.

Lemma emit_to_truthy s ev p es :
  Js.truthy s = true → Server.emit_to (Some s) ev p es = (es ++ [mkEmit s ev p])%list.
Proof. intros H. unfold Server.emit_to. by rewrite H. Qed.

(** C8.  A [compress-pdf] submission whose engine exits with code 0.

    The engine is started as
    [python compressor.py <input> <output> <grayscale> true <dpi>], in that
    order; the output file is [compressed_<Date.now()>.pdf] in the upload
    directory; and the last event the client receives is
    ['conversion-finished'] with [status "success"] and
    [downloadUrl "/download/compressed_<Date.now()>.pdf"].  This holds on the
    direct route of [server.js] and on the queued route (gateway, worker,
    bridge), where the timestamp is taken by the worker. *)
Theorem compress_pdf_success uploadDir ttl req f s child now st
    (gst : Gateway.State) now_worker :
  req_file req = Some f →
  body_socketId (req_body req) = Some s → Js.truthy s = true →
  exitCode child = Some 0 →
  let g := Js.or_default (body_grayscale (req_body req)) "false" in
  let d := Js.or_default (body_dpi (req_body req)) "150" in
  (* server.js *)
  (let outputFilename := "compressed_" +:+ Js.num now +:+ ".pdf" in
   ∃ run rd,
     Server.post_compress_pdf uploadDir req now st = Server.Executing run ∧
     Server.argv run =
       ["python"; "compressor.py"; path_resolve (path f);
        Path.join uploadDir outputFilename; g; "true"; d] ∧
     last (Server.emitted (Server.state (Server.finish uploadDir ttl child run)))
       = Some (mkEmit s "conversion-finished" (PResult rd)) ∧
     status rd = "success" ∧
     downloadUrl rd = "/download/" +:+ outputFilename) ∧
  (* server2.js, worker, bridge *)
  (let outputFilename := "compressed_" +:+ Js.num now_worker +:+ ".pdf" in
   ∃ job e rd,
     Gateway.queue (Gateway.post_compress_pdf ttl req gst).2 =
       (Gateway.queue gst ++ [job])%list ∧
     Worker.job_name job = "compress-pdf" ∧
     Worker.processor uploadDir job now_worker child = Some e ∧
     Worker.spawned e =
       Some ["python"; "compressor.py"; path f;
             Path.join uploadDir outputFilename; g; "true"; d] ∧
     last (Gateway.bridge_all (Worker.queue_events (Worker.job_id job) e))
       = Some (mkEmit s "conversion-finished" (PResult rd)) ∧
     status rd = "success" ∧
     downloadUrl rd = "/download/" +:+ outputFilename).
Proof.
  intros Hf Hs Ht Hc g d. split.
  - intros outputFilename.
    rewrite (server_compress_route uploadDir req f now st Hf). cbn zeta.
    fold outputFilename g d. eexists _, _. split; [reflexivity|].
    split; [reflexivity|]. unfold Server.finish. rewrite Hc.
    match goal with |- context [foldl Server.on_child_event ?r0 _] =>
      set (r1 := foldl Server.on_child_event r0 (output child));
      destruct (server_fold_keeps r0 (output child)) as (Ho & _)
    end.
    cbn zeta in Ho. fold r1 in Ho.
    destruct (server_on_close_success uploadDir ttl r1) as (He & _).
    cbn zeta in He. rewrite He, Ho. cbn [Server.socketId Server.options Server.executeTask].
    rewrite Hs, (emit_to_truthy _ _ _ _ Ht), last_snoc.
    split; [reflexivity|]. by split.
  - intros outputFilename.
    rewrite (gateway_compress_route ttl req f gst Hf). cbn [snd].
    eexists _, _, _. split; [reflexivity|]. split; [reflexivity|].
    unfold compress_job_data. rewrite worker_compress_execution.
    rewrite Hc, worker_on_close_zero.
    split; [reflexivity|]. split; [reflexivity|].
    unfold Worker.queue_events. cbn [Worker.outcome Worker.job_id].
    rewrite bridge_all_snoc. cbn [Gateway.bridge Worker.rv_socketId].
    rewrite Hs, Ht, forwarded_forward, last_snoc.
    split; [reflexivity|]. by split.
Qed.

Lemma compress_pdf_success_witness :
  ∃ run rd,
    Server.post_compress_pdf Scenario.uploads Scenario.compress_req
      1700000000500 Scenario.server_state = Server.Executing run ∧
    Server.argv run =
      ["python"; "compressor.py"; "/srv/app/uploads/1700000000000-a.pdf";
       "/srv/app/uploads/compressed_1700000000500.pdf"; "true"; "true"; "100"] ∧
    last (Server.emitted (Server.state
            (Server.finish Scenario.uploads Scenario.ttl
               Scenario.timed_success run)))
      = Some (mkEmit "sock1" "conversion-finished" (PResult rd)) ∧
    status rd = "success" ∧
    downloadUrl rd = "/download/compressed_1700000000500.pdf".
Proof.
  apply (compress_pdf_success Scenario.uploads Scenario.ttl
           Scenario.compress_req Scenario.a_pdf "sock1"
           Scenario.timed_success 1700000000500 Scenario.server_state
           (Gateway.init Scenario.disk) 1700000000600); reflexivity.
Defined.

(** C10.  For every [compress-pdf] submission, on the direct route and on
    the queued one: the grayscale argument is the request's [grayscale], or
    ["false"] when the request has none; the dpi argument is the request's
    [dpi], or ["150"] when it has none; and the argument between them
    (strip_meta) is the constant ["true"]. *)
Theorem compress_pdf_defaults uploadDir ttl req f now st
    (gst : Gateway.State) now_worker child :
  req_file req = Some f →
  let g := Js.or_default (body_grayscale (req_body req)) "false" in
  let d := Js.or_default (body_dpi (req_body req)) "150" in
  (body_grayscale (req_body req) = None → g = "false") ∧
  (body_dpi (req_body req) = None → d = "150") ∧
  (∃ run in_ out,
     Server.post_compress_pdf uploadDir req now st = Server.Executing run ∧
     Server.args (Server.options run) = [in_; out; g; "true"; d]) ∧
  (∃ job e in_ out,
     Gateway.queue (Gateway.post_compress_pdf ttl req gst).2 =
       (Gateway.queue gst ++ [job])%list ∧
     Worker.grayscale (Worker.job_data job) = Some g ∧
     Worker.dpi (Worker.job_data job) = Some d ∧
     Worker.processor uploadDir job now_worker child = Some e ∧
     Worker.spawned e = Some (spawn_argv "compressor.py" [in_; out; g; "true"; d])).
Proof.
  intros Hf g d.
  split; [by subst g; intros ->|]. split; [by subst d; intros ->|]. split.
  - rewrite (server_compress_route uploadDir req f now st Hf).
    eexists _, _, _. split; reflexivity.
  - rewrite (gateway_compress_route ttl req f gst Hf). cbn [snd].
    eexists _, _, _, _. split; [reflexivity|].
    split; [reflexivity|]. split; [reflexivity|].
    unfold compress_job_data. rewrite worker_compress_execution.
    split; [reflexivity|]. by destruct (Worker.on_close _ _).
Qed.

Lemma compress_pdf_defaults_witness :
  ∃ run in_ out,
    Server.post_compress_pdf Scenario.uploads Scenario.compress_plain_req
      1700000000500 Scenario.server_state = Server.Executing run ∧
    Server.args (Server.options run) = [in_; out; "false"; "true"; "150"].
Proof.
  apply (compress_pdf_defaults Scenario.uploads Scenario.ttl
           Scenario.compress_plain_req Scenario.a_pdf 1700000000500
           Scenario.server_state (Gateway.init Scenario.disk) 1700000000600
           Scenario.quiet_success).
  reflexivity.
Defined.

(** ** The pdf-to-doc route and its key *)

(** [server.js] rejects a conversion without a key before it starts
    anything. *)
Lemma server_convert_requires_key uploadDir req now st :
  Js.or_default (body_secretKey (req_body req)) "" = "" →
  ∃ msg, Server.post_convert uploadDir req now st = Server.reject msg.
Proof.
  intros Hk. unfold Server.post_convert.
  destruct (req_file req); [|by eexists]. rewrite Hk. by eexists.
Qed.

(** [server2.js] has no such check: with a file attached, the job is put on
    the queue whatever the key is. *)
Lemma gateway_convert_always_enqueues ttl req f (gst : Gateway.State) :
  req_file req = Some f →
  ∃ job,
    Gateway.post_convert ttl req gst =
      (Gateway.queued,
       Gateway.schedule (path f) ttl
         (Gateway.mkState (Gateway.life gst) (Gateway.queue gst ++ [job])
            (Gateway.nextJobId gst + 1))) ∧
    Worker.job_name job = "pdf-to-doc" ∧
    Worker.secretKey (Worker.job_data job) =
      Some (Js.or_default (body_secretKey (req_body req)) "").
Proof.
  intros Hf. unfold Gateway.post_convert. rewrite Hf.
  eexists. split; [reflexivity|]. by split.
Qed.

(** C2 on [server2.js]: a [pdf-to-doc] submission with an empty [secretKey]
    is answered ["queued"] and a job with the empty key is on the queue,
    while [server.js] answers the same request with a 400. *)
Theorem gateway_convert_enqueues_empty_key :
  let out := Gateway.post_convert Scenario.ttl Scenario.convert_no_key_req
               (Gateway.init Scenario.disk) in
  out.1 = res_json (JQueued "queued" "Queued...") res_fresh ∧
  (∃ job, Gateway.queue out.2 = [job] ∧
          Worker.job_name job = "pdf-to-doc" ∧
          Worker.secretKey (Worker.job_data job) = Some "") ∧
  Server.post_convert Scenario.uploads Scenario.convert_no_key_req
    1700000000500 Scenario.server_state
  = Server.Responded
      (res_json (JError "Missing encryption key") (res_status 400 res_fresh)).
Proof.
  cbn zeta. split; [reflexivity|]. split; [|reflexivity].
  eexists. split; [reflexivity|]. by split.
Qed.

(** ** The event bridge *)

Lemma truthy_ne s : Js.truthy s = true ↔ s ≠ "".
Proof. by destruct s. Qed.

Lemma inbox_single clients client e :
  inbox clients client [e] =
  if decide (room e = client ∧ room e ∈ clients)
  then [(event e, payload e)] else [].
Proof.
  unfold inbox. rewrite filter_cons, filter_nil. by case_decide.
Qed.

Lemma inbox_app clients client a b :
  inbox clients client (a ++ b) =
  (inbox clients client a ++ inbox clients client b)%list.
Proof. unfold inbox. by rewrite filter_app, fmap_app. Qed.

Example bridge_forwards_completion :
  inbox {[ "sock1" ]} "sock1"
    (Gateway.bridge_all (Worker.queue_events "1" Scenario.timed_execution))
  = [("conversion-status", PText "Compressing...");
     ("conversion-status", PText "Race won in 0.4532s");
     ("conversion-finished",
      PResult (mkResponseData "success"
                 "/download/compressed_1700000000500.pdf" None
                 (Some "0.4532") (Some "compressed_1700000000500.pdf")))].
Proof. vm_compute. reflexivity. Qed.

Example bridge_drops_when_disconnected :
  inbox ∅ "sock1"
    (Gateway.bridge_all (Worker.queue_events "1" Scenario.timed_execution))
  = [].
Proof. vm_compute. reflexivity. Qed.

(** C3, as the code has it.  For every progress and every completion event
    the bridge reads the [socketId] carried in the event payload and sends
    the event to that room: the client registered under that id receives it
    (['conversion-status'] with the message, ['conversion-finished'] with
    the result), and it is dropped when the payload has no id or no client
    is registered under it.  A failure event is only logged: the bridge
    forwards nothing for it, so what a client receives for a failed job is
    exactly what the job's progress events delivered. *)
Theorem bridge_forwards_by_token (clients : gset string) (client : string) :
  (∀ ev,
     inbox clients client (Gateway.forwarded (Gateway.bridge ev)) =
     match ev with
     | Worker.QProgress _ (Some d) =>
         if decide (Worker.progress_socketId d = Some client ∧
                    client ≠ "" ∧ client ∈ clients)
         then [("conversion-status", PText (Worker.message d))] else []
     | Worker.QCompleted _ (Some rv) =>
         if decide (Worker.rv_socketId rv = Some client ∧
                    client ≠ "" ∧ client ∈ clients)
         then [("conversion-finished", PResult (Worker.rv_result rv))] else []
     | _ => []
     end) ∧
  (∀ jobId e,
     match Worker.outcome e with
     | Worker.Failed _ =>
         inbox clients client (Gateway.bridge_all (Worker.queue_events jobId e))
         = inbox clients client
             (Gateway.bridge_all
                ((λ u, Worker.QProgress jobId (Some u)) <$> Worker.progress e))
     | Worker.Completed _ => True
     end).
Proof.
  split.
  - intros [jid [d|]|jid [rv|]|jid reason]; try reflexivity.
    + cbn [Gateway.bridge].
      destruct (Worker.progress_socketId d) as [s|] eqn:Es.
      * destruct (Js.truthy s) eqn:Ht.
        -- rewrite forwarded_forward, inbox_single. cbn [room event payload].
           apply truthy_ne in Ht.
           destruct (decide (s = client ∧ s ∈ clients)) as [[-> ?]|Hn];
             destruct (decide _) as [(? & ? & ?)|Hm]; try done.
           ++ destruct Hm. done.
           ++ simplify_eq. destruct Hn. done.
        -- destruct s; [|done]. cbn.
           destruct (decide _) as [(? & ? & ?)|?]; [|done]. by simplify_eq.
      * cbn. by destruct (decide _) as [(? & ? & ?)|?].
    + cbn [Gateway.bridge].
      destruct (Worker.rv_socketId rv) as [s|] eqn:Es.
      * destruct (Js.truthy s) eqn:Ht.
        -- rewrite forwarded_forward, inbox_single. cbn [room event payload].
           apply truthy_ne in Ht.
           destruct (decide (s = client ∧ s ∈ clients)) as [[-> ?]|Hn];
             destruct (decide _) as [(? & ? & ?)|Hm]; try done.
           ++ destruct Hm. done.
           ++ simplify_eq. destruct Hn. done.
        -- destruct s; [|done]. cbn.
           destruct (decide _) as [(? & ? & ?)|?]; [|done]. by simplify_eq.
      * cbn. by destruct (decide _) as [(? & ? & ?)|?].
  - intros jobId e. destruct (Worker.outcome e) eqn:Eo; [done|].
    unfold Worker.queue_events. rewrite Eo, bridge_all_snoc, inbox_app.
    cbn [Gateway.bridge]. by rewrite app_nil_r.
Qed.

(** C3, as written, fails: the bridge forwards nothing for a failure event.
    With the client connected, a job whose engine failed delivers only a
    ['conversion-status'] message and no terminal failure event, and a job
    of an unknown type delivers nothing. *)
Lemma bridge_drops_failure_events :
  let clients : gset string := {[ "sock1" ]} in
  Gateway.forwarded
    (Gateway.bridge (Worker.QFailed "2" "Exit code 1: tesseract not found"))
    = [] ∧
  Worker.processor Scenario.uploads Scenario.ocr_job 1700000000500
    Scenario.ocr_failure = Some Scenario.ocr_failed_execution ∧
  inbox clients "sock1"
    (Gateway.bridge_all (Worker.queue_events "2" Scenario.ocr_failed_execution))
    = [("conversion-status",
        PText "Error: Exit code 1: tesseract not found")] ∧
  ∃ e, Worker.processor Scenario.uploads Scenario.unknown_job 1700000000500
         Scenario.quiet_success = Some e ∧
       Worker.outcome e = Worker.Failed "Unknown job type: pdf-to-jpg" ∧
       inbox clients "sock1"
         (Gateway.bridge_all (Worker.queue_events "3" e)) = [].
Proof.
  cbn zeta. split; [reflexivity|]. split; [exact processor_ocr_failure|].
  split; [vm_compute; reflexivity|].
  eexists. split; [vm_compute; reflexivity|]. split; [reflexivity|].
  vm_compute. reflexivity.
Qed.

(* ===================================================================== *)
(** * Further properties of the sources *)
(* ===================================================================== *)

(** ** Lifecycle manager: batches, the full cycle of one deletion, scans *)

Lemma lifecycle_eq (a b : Lifecycle) :
  fs a = fs b → deletionTimers a = deletionTimers b → timers a = timers b →
  unlinking a = unlinking b → nextTimer a = nextTimer b → a = b.
Proof. destruct a, b. cbn. by intros -> -> -> -> ->. Qed.

Lemma scheduleDeletion_scheduled_iff p ttl st q :
  scheduled q (scheduleDeletion p ttl st) ↔
  scheduled q st ∨ (q = p ∧ p ≠ "" ∧ is_Some (fs st !! p)).
Proof.
  split.
  - rewrite scheduleDeletion_unfold.
    destruct (schedulable p st) eqn:Hs; [|by left].
    unfold schedulable in Hs. apply andb_true_iff in Hs as [Hs Hex].
    apply andb_true_iff in Hs as [Hp _]. apply truthy_ne in Hp.
    apply bool_decide_eq_true_1 in Hex.
    unfold scheduled. cbn. rewrite lookup_insert.
    case_decide as Hq; [subst q; by right|by left].
  - intros [Hs|(-> & Hp & Hex)]; [by apply scheduleDeletion_keeps|].
    apply scheduleDeletion_schedules; [by apply truthy_ne|done].
Qed.

(** X1.  After [scheduleDeletion] has been called on each path of a list
    (the [forEach] over the inputs of a job, or over the uploads of a merge),
    the scheduled paths are exactly the ones scheduled before together with
    the non-empty paths of the list whose file exists; the disk is unchanged.
    A path listed twice, a missing file and an empty path add nothing. *)
Theorem schedule_all_scheduled (ps : list string) (ttl : Z) (st : Lifecycle)
    (q : string) :
  (scheduled q (schedule_all ps ttl st) ↔
     scheduled q st ∨ (q ∈ ps ∧ q ≠ "" ∧ is_Some (fs st !! q))) ∧
  fs (schedule_all ps ttl st) = fs st.
Proof.
  split; [|apply foldl_schedule_fs].
  unfold schedule_all. revert st. induction ps as [|p ps IH]; intros st.
  - cbn. split; [by left|]. intros [?|[[]%elem_of_nil _]]; done.
  - cbn [foldl]. rewrite IH, scheduleDeletion_fs, scheduleDeletion_scheduled_iff.
    rewrite elem_of_cons. clear IH. split.
    + intros [[?|(-> & ? & ?)]|(? & ? & ?)]; eauto 10.
    + intros [?|([->|?] & ? & ?)]; eauto 10.
Qed.

Lemma timer_ids_fresh_step st st' :
  lifecycle_step st st' → timer_ids_fresh st → timer_ids_fresh st'.
Proof.
  intros Hstep Inv.
  destruct Hstep as [p ttl st|id st|p st Hin|ttl dir now st|p s st]; try done.
  - rewrite scheduleDeletion_unfold. destruct (schedulable p st); [|done].
    intros t. cbn. rewrite elem_of_app, list_elem_of_singleton.
    intros [Ht| ->]; [apply Inv in Ht|cbn]; lia.
  - unfold timer_fire.
    destruct (list_find _ (timers st)) as [[i t]|]; [|done].
    intros t'. cbn. intros Ht'%list_elem_of_delete_inv. by apply Inv.
  - destruct (scan_rest ttl dir now st) as (_ & Ht & _ & Hn).
    unfold timer_ids_fresh. by rewrite Ht, Hn.
Qed.

Lemma reachable_timer_ids_fresh disk st :
  reachable disk st → timer_ids_fresh st.
Proof.
  induction 1 as [|st st' _ IH Hstep].
  - intros t Ht. by apply elem_of_nil in Ht.
  - by eapply timer_ids_fresh_step.
Qed.

Lemma length_remove_first p l :
  p ∈ l → S (length (remove_first p l)) = length l.
Proof.
  induction l as [|x l IH]; intros Hin; [by apply elem_of_nil in Hin|].
  cbn. destruct (decide (x = p)) as [->|Hne]; [done|].
  apply elem_of_cons in Hin as [->|Hin]; [done|]. cbn. by rewrite IH.
Qed.

Lemma in_flight_pos p st : p ∈ unlinking st → (0 < in_flight p st)%nat.
Proof.
  intros Hin. unfold in_flight.
  assert (p ∈ filter (λ q, q = p) (unlinking st)) as Hf
    by by apply list_elem_of_filter.
  destruct (filter _ _); [by apply elem_of_nil in Hf|cbn; lia].
Qed.

Lemma unlinking_scheduled st p :
  timers_match_map st → p ∈ unlinking st → scheduled p st.
Proof.
  intros Inv Hin. pose proof (in_flight_pos p st Hin) as Hpos.
  specialize (Inv p). unfold outstanding in Inv.
  destruct (decide (scheduled p st)); [done|lia].
Qed.

Lemma scheduledCount_step st st' :
  lifecycle_step st st' → timers_match_map st →
  scheduledCount st = (length (timers st) + length (unlinking st))%nat →
  scheduledCount st' = (length (timers st') + length (unlinking st'))%nat.
Proof.
  intros Hstep Inv Hc. unfold scheduledCount in *.
  destruct Hstep as [p ttl st|id st|p st Hin|ttl dir now st|p s st]; try done.
  - rewrite scheduleDeletion_unfold.
    destruct (schedulable p st) eqn:Hs; [|done]. cbn.
    unfold schedulable in Hs. apply andb_true_iff in Hs as [Hs _].
    apply andb_true_iff in Hs as [_ Hs]. apply negb_true_iff in Hs.
    apply bool_decide_eq_false_1 in Hs.
    rewrite map_size_insert_None, length_app; [cbn; lia|].
    apply eq_None_not_Some. exact Hs.
  - unfold timer_fire.
    destruct (list_find _ (timers st)) as [[i t]|] eqn:Hf; [|done].
    apply list_find_Some in Hf as (Hi & _). cbn.
    pose proof (lookup_lt_Some _ _ _ Hi).
    rewrite length_delete, length_app by eauto. cbn. lia.
  - cbn. pose proof (unlinking_scheduled st p Inv Hin) as Hs.
    rewrite map_size_delete_Some by exact Hs.
    pose proof (length_remove_first p _ Hin). lia.
  - destruct (scan_rest ttl dir now st) as (-> & -> & -> & _). done.
Qed.

(** X2.  In every state the server can reach, the number [/cleanup-status]
    reports ([deletionTimers.size]) is the number of deletions really
    outstanding: timers still armed plus unlinks whose callback has not run.
    The map never keeps an entry without a timer behind it, and no timer
    runs without its entry. *)
Theorem scheduledCount_is_outstanding disk st :
  reachable disk st →
  scheduledCount st = (length (timers st) + length (unlinking st))%nat.
Proof.
  induction 1 as [|st st' Hr IH Hstep].
  - unfold scheduledCount. cbn. by rewrite map_size_empty.
  - apply (scheduledCount_step st st' Hstep); [|exact IH].
    by eapply reachable_timers_match_map.
Qed.

Lemma scheduledCount_is_outstanding_witness :
  scheduledCount
    (timer_fire 0
       (scheduleDeletion (path Scenario.a_pdf) Scenario.ttl
          (lifecycle_init Scenario.disk))) = 1%nat.
Proof.
  apply (scheduledCount_is_outstanding Scenario.disk
           (timer_fire 0
              (scheduleDeletion (path Scenario.a_pdf) Scenario.ttl
                 (lifecycle_init Scenario.disk)))).
  eapply reach_step; [eapply reach_step; [apply reach_init|]|];
    constructor.
Defined.

Lemma list_find_snoc_new (l : list Timer) t id :
  timerId t = id → (∀ t', t' ∈ l → timerId t' ≠ id) →
  list_find (λ t', timerId t' = id) (l ++ [t]) = Some (length l, t).
Proof.
  intros Hid Hne. apply list_find_Some. split; [|split; [done|]].
  - rewrite lookup_app_r by lia. by rewrite Nat.sub_diag.
  - intros j y Hj Hlt. rewrite lookup_app_l in Hj by done.
    apply Hne. by eapply list_elem_of_lookup_2.
Qed.

Lemma remove_first_snoc p l : p ∉ l → remove_first p (l ++ [p]) = l.
Proof.
  induction l as [|x l IH]; intros Hnin; cbn.
  - by rewrite decide_True.
  - apply not_elem_of_cons in Hnin as [Hne Hnin].
    rewrite decide_False by done. by rewrite IH.
Qed.

(** X3.  One deletion from start to end.  When [scheduleDeletion] arms a
    timer for [p] (the path is not empty, not yet scheduled, and the file
    exists), and that timer later fires and its unlink completes, the state
    is the one before the call with the file removed: the map entry is gone,
    no timer and no unlink is left behind, and only the next timer handle has
    moved on.  So the path can be scheduled afresh once a file is written
    there again. *)
Theorem deletion_runs_to_completion disk st p ttl :
  reachable disk st →
  schedulable p st = true →
  unlink_done p (timer_fire (nextTimer st) (scheduleDeletion p ttl st))
  = mkLifecycle (delete p (fs st)) (deletionTimers st) (timers st)
                (unlinking st) (S (nextTimer st)).
Proof.
  intros Hr Hs.
  pose proof (reachable_timers_match_map _ _ Hr p) as Hout.
  pose proof (reachable_timer_ids_fresh _ _ Hr) as Hfresh.
  assert (¬ scheduled p st) as Hns.
  { unfold schedulable in Hs. apply andb_true_iff in Hs as [Hs' _].
    apply andb_true_iff in Hs' as [_ Hs']. apply negb_true_iff in Hs'.
    by apply bool_decide_eq_false_1 in Hs'. }
  rewrite decide_False in Hout by done.
  assert (p ∉ unlinking st) as Hnin.
  { intros Hin%in_flight_pos. unfold outstanding in Hout. lia. }
  rewrite scheduleDeletion_unfold, Hs. unfold timer_fire. cbn [timers].
  rewrite (list_find_snoc_new (timers st) (mkTimer (nextTimer st) p ttl)
             (nextTimer st) eq_refl).
  2:{ intros t' Ht'%Hfresh. lia. }
  unfold unlink_done. cbn. apply lifecycle_eq; cbn.
  - done.
  - rewrite delete_insert_eq. apply delete_id.
    by apply eq_None_not_Some.
  - rewrite delete_middle. apply app_nil_r.
  - by apply remove_first_snoc.
  - done.
Qed.

Lemma deletion_runs_to_completion_witness :
  let st := lifecycle_init Scenario.disk in
  let p := path Scenario.a_pdf in
  fs (unlink_done p (timer_fire 0 (scheduleDeletion p Scenario.ttl st))) !! p
  = None.
Proof.
  intros st p. change (timer_fire 0) with (timer_fire (nextTimer st)).
  rewrite (deletion_runs_to_completion Scenario.disk st p Scenario.ttl).
  - apply lookup_delete_eq.
  - apply reach_init.
  - vm_compute. reflexivity.
Defined.

(** X4.  What one scan leaves behind.  After [scanAndCleanup(dir)] no entry
    of [dir] is still due for purging (a regular file older than the TTL and
    not scheduled), every path that was not an entry of [dir] (other
    directories, files in sub-directories) is as it was, and scanning again
    at the same instant changes nothing. *)
Theorem scan_settles ttl dir now st :
  let st' := scanAndCleanup ttl dir now st in
  (∀ p stats,
     fs st' !! p = Some stats ∧ p ∈ Path.join dir <$> readdir (fs st') dir →
     purged ttl now (deletionTimers st') p stats = false) ∧
  (∀ p, p ∉ Path.join dir <$> readdir (fs st) dir → fs st' !! p = fs st !! p) ∧
  scanAndCleanup ttl dir now st' = st'.
Proof.
  cbn zeta.
  destruct (scan_rest ttl dir now st) as (Hd & Ht & Hu & Hn).
  cbn zeta in Hd, Ht, Hu, Hn.
  assert (∀ p stats,
     fs (scanAndCleanup ttl dir now st) !! p = Some stats ∧
     p ∈ Path.join dir <$> readdir (fs (scanAndCleanup ttl dir now st)) dir →
     purged ttl now (deletionTimers st) p stats = false) as Hpost.
  { intros p stats [Hlook Hin]. rewrite scan_lookup in Hlook.
    destruct (fs st !! p) as [s|] eqn:Es; [|done].
    assert (p ∈ Path.join dir <$> readdir (fs st) dir) as Hin0.
    { apply list_elem_of_fmap in Hin as (n & -> & Hn').
      apply list_elem_of_fmap_2. apply elem_of_readdir.
      apply elem_of_readdir in Hn' as (_ & ? & ?). rewrite Es. eauto. }
    rewrite decide_True in Hlook by done.
    destruct (purged ttl now (deletionTimers st) p s) eqn:Ep; [done|].
    by injection Hlook as <-. }
  split; [|split].
  - intros p stats H. rewrite Hd. by apply Hpost.
  - intros p Hnin. rewrite scan_lookup.
    destruct (fs st !! p); [|done]. by rewrite decide_False.
  - destruct (scan_rest ttl dir now (scanAndCleanup ttl dir now st))
      as (Hd' & Ht' & Hu' & Hn').
    cbn zeta in Hd', Ht', Hu', Hn'.
    apply lifecycle_eq; try done.
    apply map_eq. intros p. rewrite (scan_lookup ttl dir now (scanAndCleanup _ _ _ _)).
    destruct (fs (scanAndCleanup ttl dir now st) !! p) as [s|] eqn:Es; [|done].
    case_decide as Hin; [|done].
    rewrite Hd, (Hpost p s); [done|]. by split.
Qed.

(** ** The direct executor: one answer, one terminal event *)

Lemma listen_keeps_sent uploadDir ttl r l :
  headersSent (Server.res r) = true →
  Server.res (Listeners.listen uploadDir ttl r l) = Server.res r.
Proof.
  intros Hs. destruct l as [m|[d|d]|code]; cbn.
  - unfold Server.on_error. cbn. by rewrite Hs.
  - unfold Server.on_stdout. by destruct (Js.truthy _).
  - done.
  - unfold Server.on_close. cbn. rewrite Hs. by destruct (is_zero code).
Qed.

Lemma answer_sent_after_close uploadDir ttl code r :
  headersSent (Server.res (Server.on_close uploadDir ttl code r)) = true.
Proof.
  unfold Server.on_close. cbn.
  destruct (is_zero code); by destruct (headersSent (Server.res r)) eqn:E.
Qed.

Lemma answer_sent_after_error msg r :
  headersSent (Server.res (Server.on_error msg r)) = true.
Proof.
  unfold Server.on_error. cbn.
  by destruct (headersSent (Server.res r)) eqn:E.
Qed.

Lemma run_keeps_sent uploadDir ttl ls r :
  headersSent (Server.res r) = true →
  Server.res (Listeners.run uploadDir ttl r ls) = Server.res r.
Proof.
  revert r. induction ls as [|l ls IH]; intros r Hs; [done|].
  unfold Listeners.run in *. cbn [foldl].
  rewrite IH; rewrite (listen_keeps_sent uploadDir ttl r l Hs); done.
Qed.

(** X5.  The HTTP answer of a request is written once.  In any sequence of
    events of the child, the first [error] or [close] leaves the response
    sent, and nothing that comes after it ([close] after a failed spawn,
    late output) writes to the response again: the answer the client gets is
    the one that listener wrote, or the one already sent before it. *)
Theorem http_answer_written_once uploadDir ttl r pre l post :
  (∀ ev, l ≠ Listeners.OnData ev) →
  let at_l := Listeners.listen uploadDir ttl
                (Listeners.run uploadDir ttl r pre) l in
  headersSent (Server.res at_l) = true ∧
  Server.res (Listeners.run uploadDir ttl r (pre ++ l :: post))
  = Server.res at_l.
Proof.
  intros Hl at_l.
  assert (headersSent (Server.res at_l) = true) as Hs.
  { subst at_l. destruct l as [m|ev|code]; cbn.
    - apply answer_sent_after_error.
    - by destruct (Hl ev).
    - apply answer_sent_after_close. }
  split; [done|].
  unfold Listeners.run. rewrite foldl_app. cbn [foldl].
  by apply run_keeps_sent.
Qed.

Lemma http_answer_written_once_witness :
  let r0 := Server.executeTask res_fresh Scenario.ocr_options
              Scenario.server_state in
  Server.res
    (Listeners.run Scenario.uploads Scenario.ttl r0
       ([] ++ Listeners.OnError "spawn python ENOENT"
           :: [Listeners.OnClose (Some (-2))]))
  = res_json (JSpawnFailed "Engine spawn failed" "spawn python ENOENT")
             (res_status 500 res_fresh).
Proof.
  intros r0.
  apply (http_answer_written_once Scenario.uploads Scenario.ttl r0 []
           (Listeners.OnError "spawn python ENOENT")
           [Listeners.OnClose (Some (-2))]).
  discriminate.
Defined.

Lemma is_zero_true code : is_zero code = true → code = Some 0.
Proof.
  destruct code as [n|]; cbn; [|done]. by intros ->%Z.eqb_eq.
Qed.

Lemma emit_to_falsy socketId ev p es :
  Js.truthy_opt socketId = false → Server.emit_to socketId ev p es = es.
Proof.
  unfold Server.emit_to, Js.truthy_opt. destruct socketId as [s|]; [|done].
  by intros ->.
Qed.

Lemma status_messages_stdout d evs :
  status_messages (Stdout d :: evs) =
  if Js.truthy (Js.trim d) then Js.trim d :: status_messages evs
  else status_messages evs.
Proof. unfold status_messages. cbn. by destruct (Js.truthy _). Qed.

Lemma status_messages_stderr d evs :
  status_messages (Stderr d :: evs) = status_messages evs.
Proof. reflexivity. Qed.

Lemma server_fold_emitted s r evs :
  Server.socketId (Server.options r) = Some s → Js.truthy s = true →
  Server.emitted (Server.state (foldl Server.on_child_event r evs)) =
  (Server.emitted (Server.state r) ++
   ((λ m, mkEmit s "conversion-status" (PText m)) <$> status_messages evs))%list.
Proof.
  intros Hs Ht. revert r Hs. induction evs as [|ev evs IH]; intros r Hs.
  - cbn. by rewrite app_nil_r.
  - cbn [foldl]. rewrite IH.
    2:{ destruct (server_fold_keeps r [ev]) as (Ho & _). cbn in Ho.
        by rewrite Ho. }
    destruct ev as [d|d]; cbn [Server.on_child_event].
    + rewrite status_messages_stdout. unfold Server.on_stdout.
      destruct (Js.truthy (Js.trim d)) eqn:E; [|done].
      cbn. rewrite Hs, (emit_to_truthy _ _ _ _ Ht). by rewrite <- app_assoc.
    + by rewrite status_messages_stderr.
Qed.

(** X6.  What the client of a direct request receives.  When the request
    carried a socket id, the events [executeTask] emits over a whole run of
    the engine are, in this order: one ['conversion-status'] per chunk of
    standard output that is not blank, trimmed and in the order written;
    then exactly one terminal event, ['conversion-finished'] when the exit
    code is 0 and ['conversion-error'] otherwise.  All go to the room of
    that socket id, and standard error is never forwarded as progress. *)
Theorem executor_event_stream uploadDir ttl r s child :
  Server.socketId (Server.options r) = Some s → Js.truthy s = true →
  ∃ payload,
    Server.emitted (Server.state (Server.finish uploadDir ttl child r)) =
    (Server.emitted (Server.state r) ++
     ((λ m, mkEmit s "conversion-status" (PText m))
        <$> status_messages (output child)) ++
     [mkEmit s (Listeners.terminal_event (exitCode child)) payload])%list.
Proof.
  intros Hs Ht. unfold Server.finish.
  set (r1 := foldl Server.on_child_event r (output child)).
  destruct (server_fold_keeps r (output child)) as (Ho & _).
  cbn zeta in Ho. fold r1 in Ho.
  pose proof (server_fold_emitted s r (output child) Hs Ht) as He.
  fold r1 in He. unfold Listeners.terminal_event.
  destruct (is_zero (exitCode child)) eqn:Hz.
  - apply is_zero_true in Hz. rewrite Hz.
    destruct (server_on_close_success uploadDir ttl r1) as (Hc & _).
    cbn zeta in Hc. rewrite Hc, Ho, Hs, (emit_to_truthy _ _ _ _ Ht), He.
    eexists. by rewrite <- app_assoc.
  - destruct (server_on_close_failure uploadDir ttl r1 _ Hz) as (Hc & _).
    cbn zeta in Hc. rewrite Hc, Ho, Hs, (emit_to_truthy _ _ _ _ Ht), He.
    eexists. by rewrite <- app_assoc.
Qed.

Lemma executor_event_stream_witness :
  ∃ payload,
    Server.emitted (Server.state
      (Server.finish Scenario.uploads Scenario.ttl Scenario.timed_success
         (Server.executeTask res_fresh Scenario.ocr_options
            Scenario.server_state))) =
    [mkEmit "sock1" "conversion-status" (PText "Compressing...");
     mkEmit "sock1" "conversion-status" (PText "Race won in 0.4532s");
     mkEmit "sock1" "conversion-finished" payload].
Proof.
  apply (executor_event_stream Scenario.uploads Scenario.ttl
           (Server.executeTask res_fresh Scenario.ocr_options
              Scenario.server_state)
           "sock1" Scenario.timed_success); reflexivity.
Defined.

Lemma listen_silent uploadDir ttl r l :
  Js.truthy_opt (Server.socketId (Server.options r)) = false →
  Server.emitted (Server.state (Listeners.listen uploadDir ttl r l))
    = Server.emitted (Server.state r) ∧
  Server.options (Listeners.listen uploadDir ttl r l) = Server.options r.
Proof.
  intros Hs. destruct l as [m|[d|d]|code]; cbn.
  - unfold Server.on_error. cbn. by rewrite emit_to_falsy.
  - unfold Server.on_stdout. destruct (Js.truthy _); [|done].
    cbn. by rewrite emit_to_falsy.
  - done.
  - unfold Server.on_close. cbn.
    destruct (is_zero code); cbn; by rewrite emit_to_falsy.
Qed.

(** X7.  A request without a socket id (the field is missing or empty) is
    answered over HTTP only: whatever the child does, no listener of
    [executeTask] emits anything on the socket server. *)
Theorem executor_silent_without_socket uploadDir ttl r ls :
  Js.truthy_opt (Server.socketId (Server.options r)) = false →
  Server.emitted (Server.state (Listeners.run uploadDir ttl r ls))
  = Server.emitted (Server.state r).
Proof.
  revert r. induction ls as [|l ls IH]; intros r Hs; [done|].
  unfold Listeners.run in *. cbn [foldl].
  destruct (listen_silent uploadDir ttl r l Hs) as [He Ho].
  rewrite IH; [done|]. by rewrite Ho.
Qed.

Lemma executor_silent_without_socket_witness :
  let o := Server.mkOptions "ocr_engine.py" [] None
             [path Scenario.scan_png] "ocr_1700000000500.txt" in
  Server.emitted (Server.state
    (Listeners.run Scenario.uploads Scenario.ttl
       (Server.executeTask res_fresh o Scenario.server_state)
       [Listeners.OnData (Stdout "50%"); Listeners.OnClose (Some 0)]))
  = [].
Proof.
  intros o.
  apply (executor_silent_without_socket Scenario.uploads Scenario.ttl
           (Server.executeTask res_fresh o Scenario.server_state)).
  reflexivity.
Defined.

(** X8.  What the ['close'] listener leaves scheduled, whatever the exit
    code: the paths scheduled before, every non-empty input path whose file
    exists, and the output path when a file exists there.  Nothing else is
    added, nothing is removed, and the listener does not touch the disk. *)
Theorem close_schedules_inputs_and_output uploadDir ttl code r q :
  let o := Server.options r in
  let before := Server.life (Server.state r) in
  let after := Server.life (Server.state (Server.on_close uploadDir ttl code r)) in
  (scheduled q after ↔
     scheduled q before ∨
     (q ∈ Server.inputPaths o ∧ q ≠ "" ∧ is_Some (fs before !! q)) ∨
     (q = Server.outputPath uploadDir o ∧ is_Some (fs before !! q))) ∧
  fs after = fs before.
Proof.
  cbn zeta.
  set (o := Server.options r). set (before := Server.life (Server.state r)).
  set (life1 := schedule_all (Server.inputPaths o) ttl before).
  destruct (schedule_all_scheduled (Server.inputPaths o) ttl before q)
    as [Hq Hfs].
  fold life1 in Hq, Hfs.
  assert (Js.truthy (Server.outputPath uploadDir o) = true) as Hout
    by apply join_truthy.
  apply truthy_ne in Hout.
  assert (Server.life (Server.state (Server.on_close uploadDir ttl code r))
          = if existsSync (fs life1) (Server.outputPath uploadDir o)
            then scheduleDeletion (Server.outputPath uploadDir o) ttl life1
            else life1) as ->.
  { destruct (is_zero code) eqn:Hz.
    - apply is_zero_true in Hz as ->.
      destruct (server_on_close_success uploadDir ttl r) as (_ & _ & ->).
      fold o before. change (foldl _ before _) with life1.
      destruct (existsSync _ _) eqn:Hex; [done|].
      rewrite scheduleDeletion_unfold. unfold schedulable.
      by rewrite Hex, andb_false_r.
    - by destruct (server_on_close_failure uploadDir ttl r code Hz)
        as (_ & _ & ->). }
  unfold existsSync. rewrite Hfs.
  destruct (bool_decide (is_Some (fs before !! Server.outputPath uploadDir o)))
    eqn:Hex.
  - apply bool_decide_eq_true_1 in Hex.
    rewrite scheduleDeletion_fs, scheduleDeletion_scheduled_iff, Hq, Hfs.
    split; [|done]. split.
    + intros [[?|?]|(-> & _ & ?)]; eauto.
    + intros [?|[?|[-> ?]]]; eauto.
  - apply bool_decide_eq_false_1 in Hex. rewrite Hq. split; [|done]. split.
    + intros [?|?]; eauto.
    + intros [?|[?|[-> ?]]]; eauto. done.
Qed.

(** ** The worker and the bridge: what the client of a queued job receives *)

Lemma worker_fold_updates sock rs evs :
  Worker.updates (foldl (Worker.on_child_event sock) rs evs) =
  (Worker.updates rs ++
   ((λ m, Worker.mkProgress m sock) <$> status_messages evs))%list.
Proof.
  revert rs. induction evs as [|ev evs IH]; intros rs.
  - cbn. by rewrite app_nil_r.
  - cbn [foldl]. rewrite IH. destruct ev as [d|d]; cbn [Worker.on_child_event].
    + rewrite status_messages_stdout. unfold Worker.on_stdout. cbn zeta.
      destruct (Js.truthy (Js.trim d)); [|done].
      cbn. by rewrite <- app_assoc.
    + by rewrite status_messages_stderr.
Qed.

Lemma processor_progress uploadDir job now child e :
  Worker.processor uploadDir job now child = Some e →
  Worker.spawned e ≠ None →
  let sock := Worker.socketId (Worker.job_data job) in
  Worker.progress e =
  (((λ m, Worker.mkProgress m sock) <$> status_messages (output child)) ++
   if is_zero (exitCode child) then []
   else [Worker.mkProgress
           ("Error: Exit code " +:+ Js.code_str (exitCode child) +:+ ": "
            +:+ Js.slice0 200 (stderr_text (output child))) sock])%list.
Proof.
  intros Hp Hs sock.
  destruct (processor_spawned _ _ _ _ _ Hp Hs)
    as (script & args & out & _ & _ & _ & Hw).
  cbn zeta in Hw. fold sock in Hw.
  rewrite worker_fold_updates in Hw.
  cbn [Worker.updates Worker.run_start app] in Hw.
  destruct (is_zero (exitCode child)) eqn:Hz.
  - apply is_zero_true in Hz. rewrite Hz, worker_on_close_zero in Hw.
    destruct Hw as [-> _]. by rewrite app_nil_r.
  - rewrite (worker_on_close_nonzero _ _ Hz) in Hw.
    destruct (worker_run_buffers sock Worker.run_start (output child))
      as [_ Herr].
    cbn zeta in Herr. rewrite Herr in Hw.
    cbn [Worker.stderrOutput Worker.run_start] in Hw.
    rewrite (app_nil_l (stderr_text _)) in Hw.
    by destruct Hw as [-> _].
Qed.

(** X9.  The progress updates of one job.  When the worker has started the
    engine, the updates it publishes are one per chunk of standard output
    that is not blank, trimmed, in the order written and each tagged with
    the job's socket id; a failed run (non-zero exit code) adds one last
    update ["Error: Exit code <code>: <first 200 characters of stderr>"].
    Standard error is never published as progress of its own. *)
Theorem worker_progress_stream uploadDir job now child e :
  Worker.processor uploadDir job now child = Some e →
  Worker.spawned e ≠ None →
  let sock := Worker.socketId (Worker.job_data job) in
  Worker.progress e =
  (((λ m, Worker.mkProgress m sock) <$> status_messages (output child)) ++
   if is_zero (exitCode child) then []
   else [Worker.mkProgress
           ("Error: Exit code " +:+ Js.code_str (exitCode child) +:+ ": "
            +:+ Js.slice0 200 (stderr_text (output child))) sock])%list.
Proof. apply processor_progress. Qed.

Lemma worker_progress_stream_witness :
  Worker.progress Scenario.timed_execution =
  [Worker.mkProgress "Compressing..." (Some "sock1");
   Worker.mkProgress "Race won in 0.4532s" (Some "sock1")].
Proof.
  apply (worker_progress_stream Scenario.uploads Scenario.compress_job
           1700000000500 Scenario.timed_success Scenario.timed_execution).
  - exact processor_timed_execution.
  - discriminate.
Defined.

Lemma bridge_all_app a b :
  Gateway.bridge_all (a ++ b) =
  (Gateway.bridge_all a ++ Gateway.bridge_all b)%list.
Proof. unfold Gateway.bridge_all. by rewrite bind_app, forwarded_app. Qed.

Lemma bridge_all_progress jid s ms :
  Js.truthy s = true →
  Gateway.bridge_all
    ((λ u, Worker.QProgress jid (Some u))
       <$> ((λ m, Worker.mkProgress m (Some s)) <$> ms))
  = (λ m, mkEmit s "conversion-status" (PText m)) <$> ms.
Proof.
  intros Ht. induction ms as [|m ms IH]; [done|].
  rewrite !fmap_cons.
  change (?x :: ?l) with ([x] ++ l)%list at 1.
  rewrite bridge_all_app, IH. unfold Gateway.bridge_all. cbn.
  by rewrite Ht.
Qed.

Lemma inbox_same_room clients s es :
  s ∈ clients → Forall (λ e, room e = s) es →
  inbox clients s es = (λ e, (event e, payload e)) <$> es.
Proof.
  intros Hin Hall. unfold inbox. f_equal.
  induction Hall as [|e es He _ IH]; [done|].
  rewrite filter_cons, IH. by rewrite decide_True by (by rewrite He).
Qed.

(** X10.  What the client of a queued job receives.  When the worker has
    started the engine for a job whose socket id is registered, the client
    gets, through the bridge and in this order: one ['conversion-status']
    per non-blank chunk of standard output, then one last event, which is
    ['conversion-finished'] with the result when the job completed, and a
    ['conversion-status'] line ["Error: <reason>"] when it failed.  A failed
    job sends no ['conversion-error'] and no ['conversion-finished']. *)
Theorem queued_client_stream uploadDir job now child e s
    (clients : gset string) jid :
  Worker.processor uploadDir job now child = Some e →
  Worker.spawned e ≠ None →
  Worker.socketId (Worker.job_data job) = Some s →
  Js.truthy s = true → s ∈ clients →
  inbox clients s (Gateway.bridge_all (Worker.queue_events jid e)) =
  (((λ m, ("conversion-status", PText m)) <$> status_messages (output child))
   ++ [match Worker.outcome e with
       | Worker.Completed rv =>
           ("conversion-finished", PResult (Worker.rv_result rv))
       | Worker.Failed reason =>
           ("conversion-status", PText ("Error: " +:+ reason))
       end])%list.
Proof.
  intros Hp Hsp Hs Ht Hin.
  destruct (processor_spawned _ _ _ _ _ Hp Hsp)
    as (script & args & out & _ & _ & _ & Hw).
  cbn zeta in Hw. rewrite Hs, worker_fold_updates in Hw.
  cbn [Worker.updates Worker.run_start app] in Hw.
  unfold Worker.queue_events. rewrite bridge_all_snoc.
  destruct (Worker.on_close _ _) as [d|msg]; destruct Hw as [-> ->].
  - rewrite (bridge_all_progress jid s _ Ht). cbn [Gateway.bridge Worker.rv_socketId].
    rewrite Ht, forwarded_forward.
    rewrite inbox_same_room; [|done|].
    + rewrite fmap_app, <- list_fmap_compose. done.
    + apply Forall_app. split; [|by repeat constructor].
      apply Forall_fmap, Forall_forall. by intros.
  - replace (((λ m, Worker.mkProgress m (Some s))
                <$> status_messages (output child))
             ++ [Worker.mkProgress ("Error: " +:+ msg) (Some s)])%list
      with ((λ m, Worker.mkProgress m (Some s))
              <$> (status_messages (output child) ++ ["Error: " +:+ msg]))%list
      by by rewrite fmap_app.
    rewrite (bridge_all_progress jid s _ Ht). cbn [Gateway.bridge Gateway.forwarded omap list_omap].
    rewrite app_nil_r.
    rewrite inbox_same_room; [|done|].
    + rewrite <- list_fmap_compose. by rewrite fmap_app.
    + apply Forall_fmap, Forall_forall. by intros.
Qed.

Lemma queued_client_stream_witness :
  inbox {[ "sock1" ]} "sock1"
    (Gateway.bridge_all (Worker.queue_events "2" Scenario.ocr_failed_execution))
  = [("conversion-status", PText "Error: Exit code 1: tesseract not found")].
Proof.
  apply (queued_client_stream Scenario.uploads Scenario.ocr_job 1700000000500
           Scenario.ocr_failure Scenario.ocr_failed_execution "sock1"
           {[ "sock1" ]} "2").
  - exact processor_ocr_failure.
  - discriminate.
  - reflexivity.
  - reflexivity.
  - by apply elem_of_singleton.
Defined.

(** X11.  A job whose name is none of the ten the routing table knows fails
    with ["Unknown job type: <name>"] before anything is spawned and before
    any progress is published; the bridge then has nothing to forward, so
    the submitting client is told nothing. *)
Theorem unknown_job_type_fails uploadDir job now child jid :
  Worker.job_name job ∉ job_types →
  Worker.processor uploadDir job now child =
    Some (Worker.mkExecution None []
            (Worker.Failed ("Unknown job type: " +:+ Worker.job_name job))) ∧
  Gateway.bridge_all
    (Worker.queue_events jid
       (Worker.mkExecution None []
          (Worker.Failed ("Unknown job type: " +:+ Worker.job_name job))))
  = [].
Proof.
  intros Hn. split; [|reflexivity].
  unfold job_types in Hn. repeat (apply not_elem_of_cons in Hn as [? Hn]).
  unfold Worker.processor, Worker.routing_table.
  repeat (rewrite decide_False by done). reflexivity.
Qed.

Lemma unknown_job_type_fails_witness :
  Worker.processor Scenario.uploads Scenario.unknown_job 1700000000500
    Scenario.quiet_success =
  Some (Worker.mkExecution None []
          (Worker.Failed "Unknown job type: pdf-to-jpg")).
Proof.
  apply (unknown_job_type_fails Scenario.uploads Scenario.unknown_job
           1700000000500 Scenario.quiet_success "3").
  unfold job_types. cbn.
  repeat (apply not_elem_of_cons; split; [discriminate|]).
  apply not_elem_of_nil.
Defined.

(** ** The two servers, route by route *)

Lemma mapM_id_Some {A} (l : list A) : mapM id (Some <$> l) = Some l.
Proof.
  apply mapM_Some. induction l as [|x l IH]; constructor; done.
Qed.

(** A job the routing table knows, with every argument present, is spawned
    with exactly the routed command, and a completed run names the routed
    output file in its download reference. *)
Lemma processor_routed uploadDir job now script args out :
  Worker.routing_table uploadDir (Worker.job_name job) (Worker.job_data job)
    now = Some (script, Some <$> args, out) →
  Js.truthy script = true →
  ∀ child, ∃ e,
    Worker.processor uploadDir job now child = Some e ∧
    Worker.spawned e = Some (spawn_argv script args) ∧
    ∀ rv, Worker.outcome e = Worker.Completed rv →
          downloadUrl (Worker.rv_result rv) = "/download/" +:+ out.
Proof.
  intros Hr Ht child. unfold Worker.processor. rewrite Hr. cbn.
  rewrite Ht. cbn. rewrite mapM_id_Some. cbn.
  destruct (Worker.on_close _ _) as [d|msg].
  - eexists. split; [reflexivity|]. split; [reflexivity|].
    cbn. by intros rv [= <-].
  - eexists. split; [reflexivity|]. split; [reflexivity|]. by cbn.
Qed.

Local Ltac unfold_routes :=
  unfold Routes.server_handle, Routes.gateway_handle,
    Routes.server_word_to_pdf, Routes.server_ppt_to_pdf,
    Routes.server_image_to_pdf, Routes.server_plain, Routes.server_sign_pdf,
    Routes.server_merge_pdf, Routes.server_compress_docx,
    Routes.server_compress_image, Routes.server_compress,
    Server.post_convert, Server.post_ocr_extract, Server.post_compress_pdf,
    Routes.gateway_word_to_pdf, Routes.gateway_ppt_to_pdf,
    Routes.gateway_image_to_pdf, Routes.gateway_plain,
    Routes.gateway_sign_pdf, Routes.gateway_merge_pdf,
    Routes.gateway_compress_docx, Routes.gateway_compress_image,
    Routes.gateway_compress, Gateway.post_convert, Gateway.post_ocr_extract,
    Gateway.post_compress_pdf, Server.reject, Routes.bad_request,
    Gateway.no_file in *.

Local Ltac same_command :=
  lazymatch goal with
  | |- ∀ child, ∃ e,
        Worker.processor ?u ?job ?now child = _ ∧
        _ = Some (Server.argv (Server.executeTask _ ?o _)) ∧ _ =>
      apply (processor_routed u job now (Server.script o) (Server.args o)
               (Server.outputFilename o)); reflexivity
  end.

(** X12. The queued port runs the same command.  Whatever submission
    [server.js] passes to [executeTask], [server2.js] answers with "queued"
    and puts exactly one job on the queue; that job carries the same
    socket id and the same upload paths, and the worker, when its clock
    reads what the server's did, spawns the very argv [executeTask] would
    have spawned, for every behaviour of the engine, and names the same
    output file in the download reference of a completed run.  (Uploads are
    stored under absolute paths, so [path.resolve] leaves them as they
    are.) *)
Theorem queued_port_runs_same_command uploadDir ttl extname sub now st gst
    run :
  Routes.server_handle uploadDir extname sub now st
    = Some (Server.Executing run) →
  ∃ job gst',
    Routes.gateway_handle ttl extname sub gst = Some (Gateway.queued, gst') ∧
    Gateway.queue gst' = (Gateway.queue gst ++ [job])%list ∧
    Worker.socketId (Worker.job_data job)
      = Server.socketId (Server.options run) ∧
    Routes.job_inputs (Worker.job_data job)
      = Server.inputPaths (Server.options run) ∧
    ∀ child, ∃ e,
      Worker.processor uploadDir job now child = Some e ∧
      Worker.spawned e = Some (Server.argv run) ∧
      ∀ rv, Worker.outcome e = Worker.Completed rv →
            downloadUrl (Worker.rv_result rv)
              = "/download/" +:+ Server.outputFilename (Server.options run).
Proof.
  intros H.
  destruct sub as [req|req|up|up|req|req|req|req|up|up|req]; unfold_routes.
  all: try (destruct (req_file req) as [f|]; [|discriminate]).
  all: try (destruct (up_file up) as [f|]; [|discriminate]).
  all: try (destruct (up_fields up) as [fields|];
            [cbn [mbind option_bind] in *|by cbn in H];
            destruct (Routes.first_pdf fields) as [file|]; [|discriminate]).
  all: try (destruct (Routes.too_few (up_array up)); [discriminate|]).
  all: try (destruct (Js.truthy
                        (Js.or_default (body_secretKey (req_body req)) ""))
              eqn:Hk; [cbn [negb] in H|discriminate]).
  all: simplify_eq; eexists _, _; repeat (split; [reflexivity|]);
       same_command.
Qed.

Lemma queued_port_runs_same_command_witness :
  ∃ run,
    Routes.server_handle Scenario.uploads Scenario.extname
      (SignPdf Scenario.sign_upload) 1700000000500 Scenario.server_state
      = Some (Server.Executing run) ∧
    Server.argv run =
      ["python"; "sign_pdf.py"; "/srv/app/uploads/1700000000000-a.pdf";
       "/srv/app/uploads/signed_1700000000500.pdf";
       "Ada"; "all"; "50"; "50"; "24"; "#000"; "script"; "1"] ∧
    ∃ job gst',
      Routes.gateway_handle Scenario.ttl Scenario.extname
        (SignPdf Scenario.sign_upload) (Gateway.init Scenario.disk)
        = Some (Gateway.queued, gst') ∧
      Gateway.queue gst'
        = (Gateway.queue (Gateway.init Scenario.disk) ++ [job])%list ∧
      Worker.socketId (Worker.job_data job)
        = Server.socketId (Server.options run) ∧
      Routes.job_inputs (Worker.job_data job)
        = Server.inputPaths (Server.options run) ∧
      ∀ child, ∃ e,
        Worker.processor Scenario.uploads job 1700000000500 child = Some e ∧
        Worker.spawned e = Some (Server.argv run) ∧
        ∀ rv, Worker.outcome e = Worker.Completed rv →
              downloadUrl (Worker.rv_result rv)
                = "/download/" +:+
                  Server.outputFilename (Server.options run).
Proof.
  eexists. split; [vm_compute; reflexivity|]. split; [vm_compute; reflexivity|].
  apply (queued_port_runs_same_command Scenario.uploads Scenario.ttl
           Scenario.extname (SignPdf Scenario.sign_upload) 1700000000500
           Scenario.server_state (Gateway.init Scenario.disk)).
  vm_compute. reflexivity.
Defined.

(** X13. The queued port accepts nothing else, with one exception.  A
    submission that [server2.js] queues is one that [server.js] passes to
    [executeTask], unless it is a [/convert] request whose [secretKey] is
    missing or empty: that one [server.js] answers with 400 "Missing
    encryption key". *)
Theorem queued_submission_runs_directly uploadDir ttl extname sub now st gst
    gst' :
  Routes.gateway_handle ttl extname sub gst = Some (Gateway.queued, gst') →
  (∃ run, Routes.server_handle uploadDir extname sub now st
            = Some (Server.Executing run)) ∨
  (∃ req, sub = Convert req ∧
          Js.truthy (Js.or_default (body_secretKey (req_body req)) "")
            = false ∧
          Routes.server_handle uploadDir extname sub now st
            = Some (Server.reject "Missing encryption key")).
Proof.
  intros H.
  destruct sub as [req|req|up|up|req|req|req|req|up|up|req]; unfold_routes.
  all: try (destruct (req_file req) as [f|]; [|discriminate]).
  all: try (destruct (up_file up) as [f|]; [|discriminate]).
  all: try (destruct (up_fields up) as [fields|];
            [cbn [mbind option_bind] in *|by cbn in H];
            destruct (Routes.first_pdf fields) as [file|]; [|discriminate]).
  all: try (destruct (Routes.too_few (up_array up)); [discriminate|]).
  all: try (destruct (Js.truthy
                        (Js.or_default (body_secretKey (req_body req)) ""))
              eqn:Hk; cbn [negb];
            [|right; exists req; by repeat split]).
  all: left; eexists; reflexivity.
Qed.

Lemma queued_submission_runs_directly_witness :
  ∃ gst',
    Routes.gateway_handle Scenario.ttl Scenario.extname
      (Convert Scenario.convert_no_key_req) (Gateway.init Scenario.disk)
      = Some (Gateway.queued, gst') ∧
    ((∃ run, Routes.server_handle Scenario.uploads Scenario.extname
               (Convert Scenario.convert_no_key_req) 1700000000500
               Scenario.server_state
             = Some (Server.Executing run)) ∨
     (∃ req, Convert Scenario.convert_no_key_req = Convert req ∧
             Js.truthy (Js.or_default (body_secretKey (req_body req)) "")
               = false ∧
             Routes.server_handle Scenario.uploads Scenario.extname
               (Convert Scenario.convert_no_key_req) 1700000000500
               Scenario.server_state
             = Some (Server.reject "Missing encryption key"))).
Proof.
  eexists. split; [reflexivity|].
  eapply (queued_submission_runs_directly Scenario.uploads Scenario.ttl
            Scenario.extname (Convert Scenario.convert_no_key_req)
            1700000000500 Scenario.server_state (Gateway.init Scenario.disk)).
  reflexivity.
Defined.

(** X14. What a route of [server2.js] does to the producer's state.  A
    request it refuses (status 400) changes nothing: no job, no timer.  A
    request it queues appends exactly one job, whose id is the next one of
    the queue, and schedules the deletion of exactly the uploads that job
    was built from, in their order; nothing is scheduled for an output
    file. *)
Theorem gateway_enqueues_one_or_none ttl extname sub gst res gst' :
  Routes.gateway_handle ttl extname sub gst = Some (res, gst') →
  (statusCode res = 400 ∧ gst' = gst) ∨
  (res = Gateway.queued ∧
   ∃ job,
     Gateway.queue gst' = (Gateway.queue gst ++ [job])%list ∧
     Worker.job_id job = Js.num (Gateway.nextJobId gst) ∧
     Gateway.nextJobId gst' = Gateway.nextJobId gst + 1 ∧
     Gateway.life gst'
       = schedule_all (Routes.job_inputs (Worker.job_data job)) ttl
           (Gateway.life gst)).
Proof.
  intros H.
  destruct sub as [req|req|up|up|req|req|req|req|up|up|req]; unfold_routes.
  all: try (destruct (req_file req) as [f|];
            [|simplify_eq; left; by split]).
  all: try (destruct (up_file up) as [f|];
            [|simplify_eq; left; by split]).
  all: try (destruct (up_fields up) as [fields|];
            [cbn [mbind option_bind] in *|by cbn in H];
            destruct (Routes.first_pdf fields) as [file|];
            [|simplify_eq; left; by split]).
  all: try (destruct (Routes.too_few (up_array up));
            [simplify_eq; left; by split|]).
  all: simplify_eq; right; split; [reflexivity|];
       eexists; repeat (split; [reflexivity|]); reflexivity.
Qed.

Lemma gateway_enqueues_one_or_none_witness :
  ∃ res gst',
    Routes.gateway_handle Scenario.ttl Scenario.extname
      (MergePdf Scenario.merge_upload) (Gateway.init Scenario.disk)
      = Some (res, gst') ∧
    ((statusCode res = 400 ∧ gst' = Gateway.init Scenario.disk) ∨
     (res = Gateway.queued ∧
      ∃ job,
        Gateway.queue gst'
          = (Gateway.queue (Gateway.init Scenario.disk) ++ [job])%list ∧
        Worker.job_id job
          = Js.num (Gateway.nextJobId (Gateway.init Scenario.disk)) ∧
        Gateway.nextJobId gst'
          = Gateway.nextJobId (Gateway.init Scenario.disk) + 1 ∧
        Gateway.life gst'
          = schedule_all (Routes.job_inputs (Worker.job_data job))
              Scenario.ttl (Gateway.life (Gateway.init Scenario.disk)))).
Proof.
  eexists _, _. split; [reflexivity|].
  eapply (gateway_enqueues_one_or_none Scenario.ttl Scenario.extname
            (MergePdf Scenario.merge_upload) (Gateway.init Scenario.disk)).
  reflexivity.
Defined.

(** * [Solution.myAtoi] *)

Section SolutionFacts.
Import Solution.

Lemma foldl_append_nonempty (s sb : list ascii) :
  sb ≠ [] → foldl append_unless_leading sb s = (sb ++ s)%list.
Proof.
  revert sb. induction s as [|c s IH]; intros sb Hsb; cbn [foldl].
  - by rewrite app_nil_r.
  - assert (append_unless_leading sb c = (sb ++ [c])%list) as ->.
    { unfold append_unless_leading. destruct (negb (Ascii.eqb c " ")); [done|].
      destruct sb; [done|]. done. }
    rewrite IH; [by rewrite <- app_assoc|]. by destruct sb.
Qed.

Lemma strip_drop_blanks (s : list ascii) : strip s = drop_blanks s.
Proof.
  unfold strip. induction s as [|c s IH]; [done|].
  cbn [foldl drop_blanks]. unfold append_unless_leading at 2.
  destruct (Ascii.eqb c " "); cbn [negb length Nat.ltb Nat.leb app].
  - exact IH.
  - by rewrite foldl_append_nonempty.
Qed.

Lemma delete_zeros_from (steps i : nat) (sb : list ascii) :
  (length sb - i ≤ steps)%nat →
  delete_zeros steps i sb
  = Some (take i sb ++ drop_zero_keep_next (drop i sb))%list.
Proof.
  revert i sb. induction steps as [|steps IH]; intros i sb Hs.
  - assert ((i <? length sb)%nat = false) as Hi by (apply Nat.ltb_ge; lia).
    cbn [delete_zeros]. rewrite Hi.
    rewrite take_ge, drop_ge by lia. by rewrite app_nil_r.
  - cbn [delete_zeros]. destruct (i <? length sb)%nat eqn:Hi.
    + apply Nat.ltb_lt in Hi.
      destruct (lookup_lt_is_Some_2 sb i Hi) as [c Hc]. rewrite Hc.
      rewrite (drop_S sb c i Hc). cbn [drop_zero_keep_next].
      destruct (Ascii.eqb c "0").
      * rewrite IH by (rewrite length_delete by eauto; lia).
        f_equal. rewrite delete_take_drop.
        assert (length (take i sb) = i) as Hl by (rewrite length_take; lia).
        rewrite take_app_ge, drop_app_ge by lia. rewrite Hl.
        replace (S i - i)%nat with 1%nat by lia.
        rewrite <- app_assoc. f_equal.
        destruct (drop (S i) sb) as [|d rest]; [done|].
        cbn. by rewrite drop_0.
      * rewrite IH by lia. f_equal.
        rewrite (take_S_r sb i c Hc), <- app_assoc. f_equal.
    + apply Nat.ltb_ge in Hi.
      rewrite take_ge, drop_ge by lia. by rewrite app_nil_r.
Qed.

Lemma is_digit_value (c : ascii) :
  is_digit c = true → (0 ≤ digit_value c ≤ 9)%Z.
Proof.
  unfold is_digit, digit_value. intros [H1 H2]%andb_prop.
  apply N.leb_le in H1, H2. cbn in *. lia.
Qed.

Lemma foldl_decimal_nonneg (ds : list ascii) (acc : Z) :
  Forall (λ c, is_digit c = true) ds → (0 ≤ acc)%Z →
  (0 ≤ foldl (λ acc c, 10 * acc + digit_value c) acc ds)%Z.
Proof.
  intros H. revert acc. induction H as [|c ds Hc _ IH]; intros acc Hacc.
  - done.
  - cbn [foldl]. apply IH. pose proof (is_digit_value c Hc). lia.
Qed.

Lemma leading_digits_digits (sb : list ascii) :
  Forall (λ c, is_digit c = true) (leading_digits sb).
Proof.
  induction sb as [|c sb IH]; cbn [leading_digits]; [constructor|].
  destruct (is_digit c) eqn:Hc; by constructor.
Qed.

Lemma wrap_64_small (v : Z) :
  (- 2 ^ 63 ≤ v < 2 ^ 63)%Z → wrap 64 v = v.
Proof.
  intros H. unfold wrap. change (64 - 1) with 63.
  rewrite Z.mod_small; lia.
Qed.

Lemma wrap_32_small (v : Z) :
  (- 2 ^ 31 ≤ v < 2 ^ 31)%Z → wrap 32 v = v.
Proof.
  intros H. unfold wrap. change (32 - 1) with 31.
  rewrite Z.mod_small; lia.
Qed.

(** The arithmetic at the end of the method, for a parsed value that fits
    a [long]. *)
Lemma finish_clamp (neg : bool) (v : Z) :
  (0 ≤ v ≤ Long_MAX_VALUE)%Z →
  let v' := if neg then long_mul v (-1) else v in
  (if (v' >? Integer_MAX_VALUE)%Z then Integer_MAX_VALUE
   else if (v' <? Integer_MIN_VALUE)%Z then Integer_MIN_VALUE
   else int_cast v')
  = clamp (if neg then - v else v).
Proof.
  intros Hv v'. unfold Long_MAX_VALUE in Hv.
  assert (v' = if neg then - v else v) as ->.
  { subst v'. destruct neg; [|done]. unfold long_mul.
    rewrite wrap_64_small; lia. }
  unfold clamp, Integer_MAX_VALUE, Integer_MIN_VALUE.
  destruct (Z.gtb_spec (if neg then - v else v) 2147483647); [done|].
  destruct (Z.ltb_spec (if neg then - v else v) (-2147483648)); [done|].
  unfold int_cast. apply wrap_32_small. lia.
Qed.


(** The method from the buffer after the sign has been read. *)
Lemma myAtoi_after_sign (s : string) (neg : bool) (sb : list ascii) :
  read_sign (strip (list_ascii_of_string s)) = (neg, sb) →
  myAtoi s =
  Some (let sb2 := leading_digits (drop_zero_keep_next sb) in
        if (length sb2 =? 0)%nat then Return 0
        else if (decimal sb2 <=? Long_MAX_VALUE)%Z
             then Return (clamp (if neg then - decimal sb2 else decimal sb2))
             else NumberFormatException).
Proof.
  intros Hs. unfold myAtoi, myAtoi_run. rewrite Hs.
  rewrite delete_zeros_from by lia. rewrite take_0, drop_0.
  cbn [app mbind option_bind].
  set (sb2 := leading_digits (drop_zero_keep_next sb)).
  cbv zeta. destruct (length sb2 =? 0)%nat; [done|].
  unfold Long_valueOf.
  destruct (Z.leb_spec (decimal sb2) Long_MAX_VALUE) as [Hle|Hgt]; [|done].
  assert (0 ≤ decimal sb2)%Z as H0.
  { apply foldl_decimal_nonneg; [apply leading_digits_digits|done]. }
  pose proof (finish_clamp neg (decimal sb2) (conj H0 Hle)) as Hf.
  cbv zeta in Hf.
  destruct (_ >? _)%Z; [by rewrite <- Hf|].
  destruct (_ <? _)%Z; by rewrite <- Hf.
Qed.


Lemma list_ascii_of_string_app (a b : string) :
  list_ascii_of_string (a +:+ b)
  = (list_ascii_of_string a ++ list_ascii_of_string b)%list.
Proof.
  induction a as [|c a IH]; [done|].
  change (String c a +:+ b) with (String c (a +:+ b)).
  cbn [list_ascii_of_string app]. by rewrite IH.
Qed.

Lemma drop_blanks_replicate (n : nat) (l : list ascii) :
  drop_blanks (replicate n " "%char ++ l) = drop_blanks l.
Proof. induction n as [|n IH]; [done|exact IH]. Qed.

Lemma drop_blanks_app (a x : list ascii) :
  drop_blanks a ≠ [] → drop_blanks (a ++ x) = (drop_blanks a ++ x)%list.
Proof.
  induction a as [|c a IH]; [done|]. cbn [drop_blanks app].
  destruct (Ascii.eqb c " "); [exact IH|done].
Qed.

Lemma drop_blanks_subseteq (a : list ascii) (c : ascii) :
  c ∈ drop_blanks a → c ∈ a.
Proof.
  induction a as [|d a IH]; [done|]. cbn [drop_blanks].
  destruct (Ascii.eqb d " "); [|done]. intros H. apply elem_of_cons. by right; apply IH.
Qed.

Lemma keep_zero_free (l : list ascii) :
  "0"%char ∉ l → drop_zero_keep_next l = l.
Proof.
  induction l as [|c l IH]; [done|]. intros [Hc Hl]%not_elem_of_cons.
  cbn [drop_zero_keep_next]. destruct (Ascii.eqb_spec c "0") as [->|_]; [done|].
  by rewrite IH.
Qed.

Lemma keep_zero_free_app (a x : list ascii) :
  "0"%char ∉ a →
  drop_zero_keep_next (a ++ x) = (a ++ drop_zero_keep_next x)%list.
Proof.
  induction a as [|c a IH]; [done|]. intros [Hc Hl]%not_elem_of_cons.
  cbn [drop_zero_keep_next app].
  destruct (Ascii.eqb_spec c "0") as [->|_]; [done|]. by rewrite IH.
Qed.

Lemma nonzero_digits_zero_free (ds : list ascii) :
  Forall (λ c, is_nonzero_digit c = true) ds → "0"%char ∉ ds.
Proof.
  intros H Hin. rewrite Forall_forall in H. by specialize (H _ Hin).
Qed.

Lemma leading_digits_app (ds l : list ascii) :
  Forall (λ c, is_nonzero_digit c = true) ds →
  leading_digits (ds ++ l) = (ds ++ leading_digits l)%list.
Proof.
  induction 1 as [|c ds Hc _ IH]; [done|]. cbn [leading_digits app].
  apply andb_prop in Hc as [-> _]. by rewrite IH.
Qed.

End SolutionFacts.

(** X15.  The loop that deletes zeros ends, and does not delete them all.
    Run from index 0 on any buffer, the loop ends within as many iterations
    as the buffer is long, and leaves the buffer with each ['0'] removed
    that does not directly follow a removed one: [deleteCharAt(i)] moves the
    next character under the index, the index moves on, and so that
    character is never looked at.  The zeros go wherever they stand, not
    only in front of the number. *)
Theorem zero_loop_keeps_next (sb : list ascii) :
  Solution.delete_zeros (length sb) 0 sb
  = Some (Solution.drop_zero_keep_next sb).
Proof.
  rewrite delete_zeros_from by lia. by rewrite take_0, drop_0.
Qed.


(** X17.  Blanks in front of the text are ignored: with any number of
    them put before a string, [myAtoi] prints the same lines and ends the
    same way. *)
Theorem myAtoi_ignores_leading_blanks (n : nat) (s : string) :
  Solution.myAtoi_run (Solution.blanks n +:+ s) = Solution.myAtoi_run s.
Proof.
  unfold Solution.myAtoi_run, Solution.blanks.
  rewrite list_ascii_of_string_app, list_ascii_of_string_of_list_ascii.
  by rewrite !strip_drop_blanks, drop_blanks_replicate.
Qed.

(** X18.  Where [myAtoi] is right.  On an optional sign, then digits
    among 1 to 9, then either the end or a character that is not a digit,
    the method returns the number the digits denote, negated after ['-'],
    and brought into the range of [int]; except that digits denoting more
    than [Long.MAX_VALUE] raise [NumberFormatException] instead of being
    clamped. *)
Theorem myAtoi_zero_free_number (sign ds rest : list ascii) :
  sign ∈ [[]; ["+"%char]; ["-"%char]] →
  ds ≠ [] →
  Forall (λ c, Solution.is_nonzero_digit c = true) ds →
  (∀ c, head rest = Some c → Solution.is_digit c = false) →
  Solution.myAtoi (string_of_list_ascii (sign ++ ds ++ rest))
  = Some (if (Solution.decimal ds <=? Solution.Long_MAX_VALUE)%Z
          then Solution.Return
                 (Solution.clamp (if bool_decide (sign = ["-"%char])
                                  then - Solution.decimal ds
                                  else Solution.decimal ds))
          else Solution.NumberFormatException).
Proof.
  intros Hsign Hne Hds Hrest.
  assert (Solution.read_sign
            (Solution.strip
               (list_ascii_of_string
                  (string_of_list_ascii (sign ++ ds ++ rest))))
          = (bool_decide (sign = ["-"%char]), (ds ++ rest)%list)) as Hs.
  { rewrite list_ascii_of_string_of_list_ascii, strip_drop_blanks.
    destruct ds as [|d ds]; [done|].
    apply Forall_cons in Hds as [Hd _].
    apply andb_prop in Hd as [Hd _].
    assert (Ascii.eqb d " " = false) as Hb
      by (apply Ascii.eqb_neq; intros ->; vm_compute in Hd; discriminate).
    assert (Ascii.eqb d "-" = false) as Hm
      by (apply Ascii.eqb_neq; intros ->; vm_compute in Hd; discriminate).
    assert (Ascii.eqb d "+" = false) as Hp
      by (apply Ascii.eqb_neq; intros ->; vm_compute in Hd; discriminate).
    rewrite !elem_of_cons in Hsign.
    destruct Hsign as [->|[->|[->|[]%elem_of_nil]]];
      cbn [app Solution.drop_blanks]; [rewrite Hb|..];
      unfold Solution.read_sign; cbn; rewrite ?Hm, ?Hp; done. }
  rewrite (myAtoi_after_sign _ _ _ Hs). cbv zeta.
  rewrite keep_zero_free_app by by apply nonzero_digits_zero_free.
  rewrite leading_digits_app by done.
  assert (Solution.leading_digits (Solution.drop_zero_keep_next rest) = [])
    as ->.
  { destruct rest as [|c rest]; [done|].
    specialize (Hrest c eq_refl). cbn [Solution.drop_zero_keep_next].
    destruct (Ascii.eqb_spec c "0") as [->|_]; [done|].
    cbn [Solution.leading_digits]. by rewrite Hrest. }
  rewrite app_nil_r. destruct ds; [done|]. done.
Qed.

Lemma myAtoi_zero_free_number_witness :
  Solution.myAtoi "-2147483649 units" = Some (Solution.Return (-2147483648)).
Proof.
  apply (myAtoi_zero_free_number ["-"%char]
           (list_ascii_of_string "2147483649")
           (list_ascii_of_string " units")).
  - apply elem_of_cons; right. apply elem_of_cons; right.
    apply elem_of_cons; by left.
  - done.
  - repeat constructor.
  - intros c [= <-]. reflexivity.
Defined.

(** X19.  Where [myAtoi] is wrong.  A ['0'] that stands between two
    parts without zeros, after at least one character that is not a blank,
    is lost: the method ends as it does on the text without that ['0'], so
    "105" reads as 15. *)
Theorem myAtoi_loses_zero (a b : list ascii) :
  "0"%char ∉ a → "0"%char ∉ b → Solution.drop_blanks a ≠ [] →
  Solution.myAtoi (string_of_list_ascii (a ++ "0"%char :: b))
  = Solution.myAtoi (string_of_list_ascii (a ++ b)).
Proof.
  intros Ha Hb Hne.
  assert (∃ neg a',
            ("0"%char ∉ a') ∧
            ∀ x, Solution.read_sign
                   (Solution.strip
                      (list_ascii_of_string (string_of_list_ascii (a ++ x))))
                 = (neg, (a' ++ x)%list)) as (neg & a' & Ha' & Hs).
  { assert ("0"%char ∉ Solution.drop_blanks a) as Hz.
    { intros Hin. by apply Ha, drop_blanks_subseteq. }
    assert (∀ x, Solution.strip
                   (list_ascii_of_string (string_of_list_ascii (a ++ x)))
                 = (Solution.drop_blanks a ++ x)%list) as Hx.
    { intros x.
      rewrite list_ascii_of_string_of_list_ascii, strip_drop_blanks.
      by apply drop_blanks_app. }
    destruct (Solution.drop_blanks a) as [|c a']; [done|].
    apply not_elem_of_cons in Hz as [Hc Ha'].
    destruct (Ascii.eqb c "-") eqn:Hm.
    { exists true, a'. split; [done|]. intros x. rewrite Hx.
      unfold Solution.read_sign. cbn. by rewrite Hm. }
    destruct (Ascii.eqb c "+") eqn:Hp.
    { exists false, a'. split; [done|]. intros x. rewrite Hx.
      unfold Solution.read_sign. cbn. by rewrite Hm, Hp. }
    exists false, (c :: a'). split; [by apply not_elem_of_cons|].
    intros x. rewrite Hx. unfold Solution.read_sign. cbn.
    by rewrite Hm, Hp. }
  rewrite (myAtoi_after_sign _ _ _ (Hs ("0"%char :: b))),
          (myAtoi_after_sign _ _ _ (Hs b)).
  rewrite !keep_zero_free_app by done.
  assert (Solution.drop_zero_keep_next ("0"%char :: b)
          = Solution.drop_zero_keep_next b) as ->; [|done].
  rewrite (keep_zero_free b Hb). destruct b as [|d b]; [done|].
  apply not_elem_of_cons in Hb as [_ Hb].
  cbn. by rewrite keep_zero_free.
Qed.

Lemma myAtoi_loses_zero_witness :
  Solution.myAtoi "105" = Solution.myAtoi "15".
Proof.
  apply (myAtoi_loses_zero (list_ascii_of_string "1")
           (list_ascii_of_string "5")).
  - by intros [[=]|[]%elem_of_nil]%elem_of_cons.
  - by intros [[=]|[]%elem_of_nil]%elem_of_cons.
  - done.
Defined.

(** X20.  What [main] prints: the buffer after each of the first three
    loops, the digits kept, and the result of [myAtoi("0-1")], which is 0
    because the leading ['0'] is deleted and ['-'] is then not a digit. *)
Theorem main_prints :
  Solution.main = Some ["0-1"; "0-1"; "-1"; ""; "0"].
Proof. vm_compute. reflexivity. Qed.
